(** * The La Haute Borne ingestion pipeline of [dashboard/backend/data_loader.py]

    A shallow embedding of the data-quality pipeline of the dashboard backend:
    [_extract_data], [_clean_scada] and [load_plant_data].

    Modelling conventions.
    - A pandas frame is the list of its rows, in frame order.  [read_csv]
      gives every frame a [RangeIndex], so row labels are unique and a
      label-based assignment ([.loc[labels, cols] = nan]) reaches exactly the
      rows at the positions the labels were taken from; frames are therefore
      addressed by position.
    - A float cell is [option Q]: [None] is NaN (the missing-value marker),
      [Some q] a finite reading.  Every finite binary float is a rational, and
      the comparisons of the source are exact on them; in the frames
      arithmetic is taken exactly (no rounding), infinities are not
      represented.  The angle normalizer, whose remainder rounds, is modelled
      a second time on binary64 itself, and the two are related.
    - A timestamp is an integer, the seconds since the epoch; in the SCADA
      frame [None] is NaT. *)

From Stdlib Require Import ZArith QArith Qround Lia Lqa Ascii.
From Stdlib Require PrimFloat FloatOps SpecFloat.
From stdpp Require Import base gmap strings list sorting.

Local Open Scope Q_scope.

(** ** Float cells *)

Definition cell : Type := option Q.

Definition NaN : cell := None.

(** [c >= b] on a float column: a NaN compares false. *)
Definition ge_f (c : cell) (b : Q) : bool :=
  match c with
  | Some x => Qle_bool b x
  | None => false
  end.

(** [c <= b] *)
Definition le_f (c : cell) (b : Q) : bool :=
  match c with
  | Some x => Qle_bool x b
  | None => false
  end.

(** [c > b] *)
Definition gt_f (c : cell) (b : Q) : bool :=
  match c with
  | Some x => negb (Qle_bool x b)
  | None => false
  end.

(** Cell-wise arithmetic: NaN propagates. *)
Definition map_f (f : Q -> Q) (c : cell) : cell :=
  match c with
  | Some x => Some (f x)
  | None => None
  end.

(** Equality of cells as readings: the same rational, or both missing. *)
Definition cell_eq (a b : cell) : Prop :=
  match a, b with
  | Some x, Some y => x == y
  | None, None => True
  | _, _ => False
  end.

(** ** SCADA rows *)

Record scada_row : Type := mk_scada {
  Date_time : option Z;
  Wind_turbine_name : string;
  Ba_avg : cell;   (* blade pitch angle *)
  P_avg : cell;    (* active power *)
  Ws_avg : cell;   (* wind speed *)
  Va_avg : cell;   (* vane position *)
  Ot_avg : cell;   (* outdoor temperature *)
  Ya_avg : cell;   (* nacelle angle *)
  Wa_avg : cell    (* absolute wind direction *)
}.

Definition scada_key : Type := (option Z * string)%type.

(** The [subset=["Date_time", "Wind_turbine_name"]] of [drop_duplicates]. *)
Definition key (r : scada_row) : scada_key := (Date_time r, Wind_turbine_name r).

(** ** Deduplicator: [drop_duplicates(subset=..., keep="first")] *)

Fixpoint drop_duplicates_from (seen : gset scada_key) (df : list scada_row)
  : list scada_row :=
  match df with
  | [] => []
  | r :: rest =>
      if decide (key r ∈ seen) then drop_duplicates_from seen rest
      else r :: drop_duplicates_from ({[ key r ]} ∪ seen) rest
  end.

Definition drop_duplicates (df : list scada_row) : list scada_row :=
  drop_duplicates_from ∅ df.

(** ** Range filter: [df[(df["Ot_avg"] >= -15.0) & (df["Ot_avg"] <= 45.0)]] *)

Definition in_temp_range (r : scada_row) : bool :=
  ge_f (Ot_avg r) (-15) && le_f (Ot_avg r) 45.

Definition range_filter (df : list scada_row) : list scada_row :=
  List.filter in_temp_range df.

(** ** Stuck-sensor detector: [filters.unresponsive_flag] *)

Section Detector.
Context {A : Type} (same : A -> A -> bool).

(** The [w] samples that end at position [e]. *)
Definition window (xs : list A) (w e : nat) : list A :=
  take w (drop (S e - w) xs).

(** A window is constant when every later sample is identical to its
    first one. *)
Definition constant (win : list A) : bool :=
  match win with
  | [] => true
  | x :: rest => forallb (same x) rest
  end.

(** Position [e] is flagged: a full window of [w] samples ends there and
    the signal does not vary over it. *)
Definition flagged (xs : list A) (w e : nat) : bool :=
  (w <=? S e)%nat && (e <? length xs)%nat && constant (window xs w e).

(** Modelled from the spec: [openoa.utils.filters.unresponsive_flag] is
    not among the sources.  Per the stuck-sensor detector of the spec, the
    signal is scanned in order with a sliding window of length [w]; a
    position is flagged when the value is identical over the [w]
    consecutive samples ending there, and once a position is flagged all
    positions of that run are marked.  The result holds one boolean per
    sample: the mark. *)
Definition unresponsive_flag (xs : list A) (w : nat) : list bool :=
  List.map (fun p => existsb (flagged xs w) (seq p w)) (seq 0 (length xs)).
End Detector.

(** Two float readings are identical when they are the same number; a NaN
    is identical to nothing (IEEE comparison), so a gap in the signal is
    never part of a stuck run. *)
Definition cell_same (a b : cell) : bool :=
  match a, b with
  | Some x, Some y => Qeq_bool x y
  | _, _ => false
  end.

(** ** Nulling the flagged cells *)

(** [sensor_cols], the columns written by the short-window detector. *)
Definition null_sensor_cols (r : scada_row) : scada_row :=
  {| Date_time := Date_time r;
     Wind_turbine_name := Wind_turbine_name r;
     Ba_avg := NaN; P_avg := NaN; Ws_avg := NaN; Va_avg := NaN;
     Ot_avg := NaN; Ya_avg := NaN; Wa_avg := NaN |}.

Definition null_Ot_avg (r : scada_row) : scada_row :=
  {| Date_time := Date_time r;
     Wind_turbine_name := Wind_turbine_name r;
     Ba_avg := Ba_avg r; P_avg := P_avg r; Ws_avg := Ws_avg r;
     Va_avg := Va_avg r; Ot_avg := NaN; Ya_avg := Ya_avg r;
     Wa_avg := Wa_avg r |}.

(** [ix_turbine = scada_df["Wind_turbine_name"] == t_id] *)
Definition ix_turbine (t_id : string) (r : scada_row) : bool :=
  String.eqb (Wind_turbine_name r) t_id.

(** [scada_df.loc[ix_flag.loc[ix_flag[c]].index, cols] = np.nan], where
    [ix_flag] has one entry per row selected by the mask [ix], in frame
    order: the rows of the mask are walked together with their flags, and
    [null] blanks the columns [cols] of the flagged ones. *)
Fixpoint assign_nan (ix : scada_row -> bool) (ix_flag : list bool)
    (null : scada_row -> scada_row) (df : list scada_row) : list scada_row :=
  match df with
  | [] => []
  | r :: rest =>
      if ix r then
        match ix_flag with
        | f :: flags => (if f then null r else r) :: assign_nan ix flags null rest
        | [] => r :: assign_nan ix [] null rest
        end
      else r :: assign_nan ix ix_flag null rest
  end.

(** [Series.unique()]: the distinct values in order of first appearance. *)
Fixpoint unique_from (seen : list string) (l : list string) : list string :=
  match l with
  | [] => []
  | x :: rest =>
      if decide (x ∈ seen) then unique_from seen rest
      else x :: unique_from (x :: seen) rest
  end.

Definition unique (l : list string) : list string := unique_from [] l.

(** The body of [for t_id in turbine_ids]. *)
Definition flag_turbine (scada_df : list scada_row) (t_id : string)
  : list scada_row :=
  let ix_flag :=
    unresponsive_flag cell_same
      (List.map Va_avg (List.filter (ix_turbine t_id) scada_df)) 3 in
  let scada_df := assign_nan (ix_turbine t_id) ix_flag null_sensor_cols scada_df in
  let ix_flag :=
    unresponsive_flag cell_same
      (List.map Ot_avg (List.filter (ix_turbine t_id) scada_df)) 20 in
  assign_nan (ix_turbine t_id) ix_flag null_Ot_avg scada_df.

Definition flag_unresponsive (scada_df : list scada_row) : list scada_row :=
  let turbine_ids := unique (List.map Wind_turbine_name scada_df) in
  fold_left flag_turbine turbine_ids scada_df.

(** ** Angle normalizer *)

(** [x % 360] on floats: the remainder has the sign of the divisor.  This
    is the exact remainder; line 60 stores it rounded, see [remainder64]. *)
Definition mod360 (x : Q) : Q := x - 360 * inject_Z (Qfloor (x / 360)).

(** [Ba_avg % 360], then [- 360.0] where the result is [> 180.0]. *)
Definition normalize_angle (c : cell) : cell :=
  let c := map_f mod360 c in
  if gt_f c 180 then map_f (fun x => x - 360) c else c.

Definition normalize_pitch (r : scada_row) : scada_row :=
  {| Date_time := Date_time r;
     Wind_turbine_name := Wind_turbine_name r;
     Ba_avg := normalize_angle (Ba_avg r); P_avg := P_avg r;
     Ws_avg := Ws_avg r; Va_avg := Va_avg r; Ot_avg := Ot_avg r;
     Ya_avg := Ya_avg r; Wa_avg := Wa_avg r |}.

(** ** The angle normalizer on binary64

    Lines 60 to 62 compute on [float64] columns, and one of their
    operations rounds.  Where a property depends on it, the normalizer is
    read on the floats themselves.

    A finite binary64 number is [±m·2^e] with [m < 2^53] and
    [-1074 <= e <= 971], so it is a whole multiple of [2^-1074]: it is
    written here as the integer [n] that counts these units (its value is
    [n / 2^1074]).  NaN is [None]; the two zeros are one; infinities are
    not represented (their remainder is NaN). *)

Local Open Scope Z_scope.

Definition ulps_per_unit : Z := 2 ^ 1074.

(** The float [d.0] of a whole number of degrees. *)
Definition degrees (d : Z) : Z := d * ulps_per_unit.

(** The exponent of the last place of [n]: 53 significant bits, no
    exponent below that of the subnormals. *)
Definition ulp_exp (n : Z) : Z := Z.max 0 (Z.log2 (Z.abs n) - 52).

(** [n] is a finite binary64 number: below [2^1024] in magnitude, and
    nothing set under its last place. *)
Definition binary64 (n : Z) : bool :=
  (Z.abs n <? 2 ^ 2098) && (n mod 2 ^ ulp_exp n =? 0).

(** [a / b] rounded to the nearest integer, a tie to the even one. *)
Definition div_nearest_even (a b : Z) : Z :=
  let q := a / b in
  match 2 * (a mod b) ?= b with
  | Lt => q
  | Gt => q + 1
  | Eq => if Z.even q then q else q + 1
  end.

(** Rounding to nearest, ties to even: the binary64 number an exact
    result is stored as (for results below [2^1024]: no overflow). *)
Definition round64 (n : Z) : Z :=
  let k := ulp_exp n in div_nearest_even n (2 ^ k) * 2 ^ k.

(** [a + b] and [a - b] on floats: the exact result, rounded. *)
Definition add64 (a b : Z) : Z := round64 (a + b).
Definition sub64 (a b : Z) : Z := round64 (a - b).

(** [a % b] on floats, for [b] other than zero, as numpy and Python compute
    it: [mod = fmod(a, b)], which is exact and has the sign of [a]; a
    [mod] other than zero whose sign differs from that of [b] becomes
    [mod + b], a float addition; a zero [mod] is returned as zero. *)
Definition remainder64 (a b : Z) : Z :=
  let mod_ := Z.rem a b in
  if mod_ =? 0 then 0
  else if xorb (b <? 0) (mod_ <? 0) then add64 mod_ b
  else mod_.

(** Lines 60 to 62 on one cell: [Ba_avg % 360], then [- 360.0] where the
    result is [> 180.0]; a NaN stays a NaN. *)
Definition normalize_angle64 (c : option Z) : option Z :=
  match c with
  | Some x =>
      let m := remainder64 x (degrees 360) in
      if degrees 180 <? m then Some (sub64 m (degrees 360)) else Some m
  | None => None
  end.

Local Close Scope Z_scope.

(** The rational a float stands for, as the cells of the frames have it. *)
Definition value (n : Z) : Q := inject_Z n / inject_Z ulps_per_unit.

(** The floats of the kernel, to compare the arithmetic above with: the
    float that [n] units round to, and the units of a finite float. *)
Definition of_ulps (n : Z) : PrimFloat.float :=
  FloatOps.SF2Prim (SpecFloat.binary_normalize 53 1024 n (-1074) false).

Definition ulps (x : PrimFloat.float) : option Z :=
  match FloatOps.Prim2SF x with
  | SpecFloat.S754_zero _ => Some 0%Z
  | SpecFloat.S754_finite s m e =>
      Some ((if s then -1 else 1) * Z.pos m * 2 ^ (e + 1074))%Z
  | _ => None
  end.

(** ** Energy integrator *)

(** [scada_freq = "10min"], in minutes. *)
Definition scada_freq : Q := 10.

(** Modelled from the spec: [openoa.utils.unit_conversion.convert_power_to_energy]
    is not among the sources.  Per the energy integrator of the spec, the
    energy delivered over an interval of fixed duration is power times
    duration in consistent units (kW over a period given in minutes to kWh:
    the period is expressed in hours). *)
Definition convert_power_to_energy (power : cell) (sample_rate_min : Q) : cell :=
  map_f (fun p => p * (sample_rate_min / 60)) power.

(** [un.convert_power_to_energy(scada_df.P_avg * 1000, scada_freq) / 1000] *)
Definition energy_of (p_avg : cell) : cell :=
  map_f (fun e => e / 1000)
    (convert_power_to_energy (map_f (fun p => p * 1000) p_avg) scada_freq).

(** A cleaned SCADA row: the input columns and the added [energy_kwh]. *)
Record scada_clean_row : Type := mk_clean {
  scada : scada_row;
  energy_kwh : cell
}.

Definition add_energy (r : scada_row) : scada_clean_row :=
  {| scada := r; energy_kwh := energy_of (P_avg r) |}.

(** ** [_clean_scada], on the frame read from the SCADA file *)

Definition _clean_scada (scada_df : list scada_row) : list scada_clean_row :=
  let scada_df := drop_duplicates scada_df in
  let scada_df := range_filter scada_df in
  let scada_df := flag_unresponsive scada_df in
  let scada_df := List.map normalize_pitch scada_df in
  List.map add_energy scada_df.

(** ** Failures of the run *)

Inductive error : Type :=
  | SchemaViolation (field : string)
  | EntityReconciliationError (asset_id : string)
  | ValueError.   (* raised inside pandas *)

(** The error monad of the run: an exception ends it. *)
#[global] Instance err_bind : MBind (sum error) :=
  fun A B f x =>
    match x with
    | inl e => inl e
    | inr a => f a
    end.

(** ** Meter and curtailment: both cut from [plant_data.csv] *)

Record plant_row : Type := mk_plant {
  time_utc : Z;
  net_energy : cell;        (* the columns kept by the meter frame *)
  availability_kwh : cell;
  curtailment_kwh : cell
}.

Record meter_row : Type := mk_meter {
  meter_time : Z;
  meter_energy : cell
}.

Record curtail_row : Type := mk_curtail {
  curtail_time : Z;
  curtail_energy : cell;
  curtail_availability_kwh : cell;
  curtail_curtailment_kwh : cell
}.

(** [drop(["time_utc", "availability_kwh", "curtailment_kwh"])] after
    [time] is added. *)
Definition meter_of (r : plant_row) : meter_row :=
  {| meter_time := time_utc r; meter_energy := net_energy r |}.

(** [drop(["time_utc"])] after [time] is added. *)
Definition curtail_of (r : plant_row) : curtail_row :=
  {| curtail_time := time_utc r;
     curtail_energy := net_energy r;
     curtail_availability_kwh := availability_kwh r;
     curtail_curtailment_kwh := curtailment_kwh r |}.

(** ** Reanalysis streams *)

(** A row of a reanalysis file: the timestamp and the horizontal wind
    components ([u_50], [v_50] for MERRA2, [u_100], [v_100] for ERA5).
    The other feature columns travel as the two components do. *)
Record reanalysis_raw : Type := mk_raw {
  raw_datetime : Z;
  raw_u : cell;
  raw_v : cell
}.

Record reanalysis_row : Type := mk_re {
  datetime : Z;
  u : cell;
  v : cell;
  winddirection_deg : cell
}.

(** Timestamps count seconds; ["1h"]. *)
Definition hour : Z := 3600.

(** [pd.date_range(start, stop, freq)]: [start], [start + freq], ... up to
    [stop] included. *)
Definition date_range (start stop freq : Z) : list Z :=
  List.map (fun i => (start + Z.of_nat i * freq)%Z)
    (seq 0 (S (Z.to_nat ((stop - start) / freq)))).

Definition index_min (i0 : Z) (ix : list Z) : Z := fold_right Z.min i0 ix.
Definition index_max (i0 : Z) (ix : list Z) : Z := fold_right Z.max i0 ix.

(** The row labelled [ts], if the frame has one. *)
Definition row_at (df : list reanalysis_raw) (ts : Z) : option reanalysis_raw :=
  List.find (fun r => Z.eqb (raw_datetime r) ts) df.

(** [df.set_index(pd.DatetimeIndex(df.datetime)).asfreq(freq)]: the frame
    is reindexed on the regular range from its smallest to its largest
    timestamp; a label of the range without a row gets a row of NaN
    ([None] here), a row whose label is off the range is left out.  An empty
    frame stays empty; reindexing a frame with a repeated label raises
    [ValueError]. *)
Definition asfreq (df : list reanalysis_raw) (freq : Z)
  : error + list (Z * option reanalysis_raw) :=
  match List.map raw_datetime df with
  | [] => inr []
  | i0 :: ix =>
      if decide (NoDup (i0 :: ix)) then
        inr (List.map (fun ts => (ts, row_at df ts))
               (date_range (index_min i0 ix) (index_max i0 ix) freq))
      else inl ValueError
  end.

(** ** The entity table *)

Record asset_row : Type := mk_asset {
  asset_id : string;
  type : string
}.

(** [asset_df["type"] = "turbine"] *)
Definition set_type (a : asset_row) : asset_row :=
  {| asset_id := asset_id a; type := "turbine" |}.

(** ** The conformed dataset *)

Record plant_data : Type := mk_plant_data {
  pd_scada : list scada_clean_row;
  pd_meter : list meter_row;
  pd_curtail : list curtail_row;
  pd_asset : list asset_row;
  pd_reanalysis : list (string * list reanalysis_row)
}.

(** ** The two reanalysis paths of [load_plant_data] *)

Section Pipeline.
(** [openoa.utils.met_data_processing.compute_wind_direction] is not among
    the sources; it is applied cell by cell to the two wind components. *)
Variable compute_wind_direction : cell -> cell -> cell.

(** MERRA2: the derived direction is added, nothing else is done. *)
Definition merra2_row (r : reanalysis_raw) : reanalysis_row :=
  {| datetime := raw_datetime r; u := raw_u r; v := raw_v r;
     winddirection_deg := compute_wind_direction (raw_u r) (raw_v r) |}.

Definition load_merra2 (df : list reanalysis_raw) : list reanalysis_row :=
  List.map merra2_row df.

(** ERA5 after [asfreq]: [datetime] is rewritten from the index and the
    direction derived from the (possibly NaN) components. *)
Definition era5_row (ir : Z * option reanalysis_raw) : reanalysis_row :=
  let u_100 := from_option raw_u NaN ir.2 in
  let v_100 := from_option raw_v NaN ir.2 in
  {| datetime := ir.1; u := u_100; v := v_100;
     winddirection_deg := compute_wind_direction u_100 v_100 |}.

Definition load_era5 (df : list reanalysis_raw) : error + list reanalysis_row :=
  re_era5 ← asfreq df hour;
  inr (List.map era5_row re_era5).
End Pipeline.

(** ** The dataset directory and [_extract_data] *)

Module FS.

(** A path is the list of its components. *)
Definition path : Type := list string.

(** A member of an archive: its relative path and its bytes, or [None]
    for a directory entry. *)
Definition member : Type := (path * option string)%type.

Inductive node : Type :=
  | Dir
  | File (data : string)
  | Archive (members : list member).   (* a file that is a zip archive *)

Inductive os_error : Type :=
  | FileNotFoundError
  | NotADirectoryError
  | IsADirectoryError
  | BadZipFile
  | EmptyName.

#[global] Instance os_bind : MBind (sum os_error) :=
  fun A B f x =>
    match x with
    | inl e => inl e
    | inr a => f a
    end.

(** [name[:i]] for the last dot [i] of [name], when that dot is neither
    the first nor the last character; else the whole name. *)
Definition stem (name : string) : string :=
  let cs := String.list_ascii_of_string name in
  match list_find (fun c => c = "."%char) (reverse cs) with
  | Some (j, _) =>
      let i := (length cs - 1 - j)%nat in
      if (0 <? i)%nat && (i <? length cs - 1)%nat
      then String.string_of_list_ascii (take i cs)
      else name
  | None => name
  end.

(** [Path.with_suffix]: the suffix of the last component is replaced. *)
Definition with_suffix (p : path) (suffix : string) : os_error + path :=
  match last p with
  | None | Some EmptyString => inl EmptyName
  | Some name => inr (removelast p ++ [(stem name +:+ suffix)%string])
  end.

(** [Path.exists] *)
Definition exists_ (fs : gmap path node) (p : path) : bool :=
  bool_decide (is_Some (fs !! p)).

(** [os.makedirs]: the directories [base/c1], [base/c1/c2], ... are
    created where absent; a file in the way is an error. *)
Fixpoint makedirs (fs : gmap path node) (base comps : path)
  : os_error + gmap path node :=
  match comps with
  | [] => inr fs
  | c :: rest =>
      let p := base ++ [c] in
      match fs !! p with
      | None => makedirs (<[p := Dir]> fs) p rest
      | Some Dir => makedirs fs p rest
      | Some _ => inl NotADirectoryError
      end
  end.

(** [ZipFile._extract_member]: the parent directories of the target are
    made, then the directory is made or the file is written. *)
Definition extract_member (dest : path) (fs : gmap path node) (m : member)
  : os_error + gmap path node :=
  let target := dest ++ m.1 in
  match m.2 with
  | None => makedirs fs [] target
  | Some data =>
      fs ← makedirs fs [] (removelast target);
      match fs !! target with
      | Some Dir => inl IsADirectoryError
      | _ => inr (<[target := File data]> fs)
      end
  end.

(** [ZipFile.extractall(dest)] *)
Fixpoint extractall (members : list member) (dest : path) (fs : gmap path node)
  : os_error + gmap path node :=
  match members with
  | [] => inr fs
  | m :: rest =>
      fs ← extract_member dest fs m;
      extractall rest dest fs
  end.

(** [ZipFile(p)] *)
Definition open_zip (fs : gmap path node) (p : path) : os_error + list member :=
  match fs !! p with
  | Some (Archive members) => inr members
  | Some (File _) => inl BadZipFile
  | Some Dir => inl IsADirectoryError
  | None => inl FileNotFoundError
  end.

(** [_extract_data]: the new state of the file system, or the exception. *)
Definition _extract_data (p : path) (fs : gmap path node)
  : os_error + gmap path node :=
  if negb (exists_ fs p) then
    zip ← with_suffix p ".zip";
    zf ← open_zip fs zip;
    extractall zf p fs
  else inr fs.

End FS.

(** ** [load_plant_data] *)

(** What ends a run of [load_plant_data]: an exception of [_extract_data]
    or of opening a file, an exception of reading a file, or one of
    [error].  Nothing in the function catches any of them. *)
Inductive exception : Type :=
  | OSError (e : FS.os_error)
  | ReadError (file : FS.path)
  | Raised (e : error).

#[global] Instance exception_bind : MBind (sum exception) :=
  fun A B f x =>
    match x with
    | inl e => inl e
    | inr a => f a
    end.

Definition os {A : Type} (x : FS.os_error + A) : exception + A :=
  match x with
  | inl e => inl (OSError e)
  | inr a => inr a
  end.

Definition raised {A : Type} (x : error + A) : exception + A :=
  match x with
  | inl e => inl (Raised e)
  | inr a => inr a
  end.

Section Run.
Variable compute_wind_direction : cell -> cell -> cell.

(** pandas is not among the sources.  What [pd.read_csv] and the
    conversions that follow it on the frame ([pd.to_datetime], the
    accesses to the named columns) make of the text of each file is a
    parameter: the typed frame, or [None] when one of them raises. *)
Variable parse_scada : string -> option (list scada_row).
Variable parse_plant : string -> option (list plant_row).
Variable parse_merra2 : string -> option (list reanalysis_raw).
Variable parse_era5 : string -> option (list reanalysis_raw).
Variable parse_asset : string -> option (list asset_row).

(** [openoa.plant.PlantData] and the metadata file [plant_meta.yml] are
    not among the sources: the validator is a parameter.  It is given the
    analysis type, the path of the metadata file and the frames, and it
    returns the conformed dataset or raises. *)
Variable PlantData :
  gmap FS.path FS.node -> string -> FS.path ->
  list scada_clean_row -> list meter_row -> list curtail_row ->
  list asset_row -> list (string * list reanalysis_row) -> error + plant_data.

(** [DATA_DIR], where the module is installed. *)
Variable DATA_DIR : FS.path.

(** [pd.read_csv(file)] and the conversions of its columns. *)
Definition read_csv {A : Type} (parse : string -> option A)
    (fs : gmap FS.path FS.node) (file : FS.path) : exception + A :=
  match fs !! file with
  | Some (FS.File data) =>
      match parse data with
      | Some df => inr df
      | None => inl (ReadError file)
      end
  | Some (FS.Archive _) => inl (ReadError file)
  | Some FS.Dir => inl (OSError FS.IsADirectoryError)
  | None => inl (OSError FS.FileNotFoundError)
  end.

(** [load_plant_data], line by line: the state of the file system it
    leaves and the dataset, or the exception that ends it. *)
Definition load_plant_data (fs : gmap FS.path FS.node)
  : exception + (gmap FS.path FS.node * plant_data) :=
  let path := DATA_DIR ++ ["la_haute_borne"%string] in
  fs ← os (FS._extract_data path fs);
  scada_df ← read_csv parse_scada fs
                (path ++ ["la-haute-borne-data-2014-2015.csv"%string]);
  let scada_df := _clean_scada scada_df in
  meter_curtail_df ← read_csv parse_plant fs (path ++ ["plant_data.csv"%string]);
  let meter_df := List.map meter_of meter_curtail_df in
  let curtail_df := List.map curtail_of meter_curtail_df in
  re_merra2 ← read_csv parse_merra2 fs
                 (path ++ ["merra2_la_haute_borne.csv"%string]);
  let re_merra2 := load_merra2 compute_wind_direction re_merra2 in
  re_era5 ← read_csv parse_era5 fs
               (path ++ ["era5_wind_la_haute_borne.csv"%string]);
  re_era5 ← raised (load_era5 compute_wind_direction re_era5);
  asset_df ← read_csv parse_asset fs
                (path ++ ["la-haute-borne_asset_table.csv"%string]);
  let asset_df := List.map set_type asset_df in
  plant ← raised
    (PlantData fs "MonteCarloAEP" (DATA_DIR ++ ["plant_meta.yml"%string])
       scada_df meter_df curtail_df asset_df
       [("era5"%string, re_era5); ("merra2"%string, re_merra2)]);
  inr (fs, plant).
End Run.

(** ** Reading the loop of [_clean_scada] per entity *)

(** The rows of one entity, flags applied by position. *)
Fixpoint null_where (ix_flag : list bool) (null : scada_row -> scada_row)
    (rows : list scada_row) : list scada_row :=
  match rows, ix_flag with
  | r :: rest, f :: flags => (if f then null r else r) :: null_where flags null rest
  | _, _ => rows
  end.

(** What one pass of the loop body does to the rows of its entity: the
    short window on the vane position blanks [sensor_cols], then the long
    window on the temperature left by it blanks the temperature. *)
Definition flag_rows (rows : list scada_row) : list scada_row :=
  let short := unresponsive_flag cell_same (List.map Va_avg rows) 3 in
  let rows1 := null_where short null_sensor_cols rows in
  let long := unresponsive_flag cell_same (List.map Ot_avg rows1) 20 in
  null_where long null_Ot_avg rows1.

(** ** The dashboard pages *)

(** *** Wake losses page: the direction of each bin and the radial axis *)

(** [np.linspace(start, stop, num, endpoint=False)] *)
Definition linspace (start stop : Q) (num : nat) : list Q :=
  List.map
    (fun i => start + inject_Z (Z.of_nat i) * ((stop - start) / inject_Z (Z.of_nat num)))
    (seq 0 num).

(** [np.linspace(0, 360, n_bins, endpoint=False) + wd_bin_width / 2] *)
Definition wd_centers (n_bins : nat) (wd_bin_width : Q) : list Q :=
  List.map (fun x => x + wd_bin_width / 2) (linspace 0 360 n_bins).

(** [c < b] on floats: a NaN compares false. *)
Definition lt_f (c : cell) (b : Q) : bool :=
  match c with
  | Some x => negb (Qle_bool b x)
  | None => false
  end.

(** The smaller of two array entries; a NaN wins. *)
Definition min_cell (a b : cell) : cell :=
  match a, b with
  | Some x, Some y => Some (if Qle_bool x y then x else y)
  | _, _ => NaN
  end.

(** [ndarray.min()]: [None] is the [ValueError] of an empty array. *)
Definition array_min (xs : list cell) : option cell :=
  match xs with
  | [] => None
  | x :: rest => Some (fold_left min_cell rest x)
  end.

(** Python's [min(a, b)]: [b] when [b < a], else [a]. *)
Definition py_min (a : Q) (b : cell) : cell :=
  if lt_f b a then b else Some a.

(** [range=[min(50, mean_eff.min() - 5), 105]] *)
Definition radial_range (mean_eff : list cell) : option (cell * Q) :=
  lo ← array_min mean_eff;
  Some (py_min 50 (map_f (fun x => x - 5) lo), 105).

(** *** Yaw misalignment page: the wind speed bins typed by the user *)

(** [str.split(sep)] for a separator of one character. *)
Fixpoint split_on (sep : ascii) (s : string) : list string :=
  match s with
  | EmptyString => [EmptyString]
  | String c rest =>
      if Ascii.eqb c sep then EmptyString :: split_on sep rest
      else
        match split_on sep rest with
        | piece :: pieces => String c piece :: pieces
        | [] => [String c EmptyString]
        end
  end.

Definition default_ws_bins : list cell := [Some 5; Some 6; Some 7; Some 8].

Section WsBins.
(** [float(x.strip())] on one piece of the text; [None] is its
    [ValueError]. *)
Variable float_strip : string -> option cell.

(** [[float(x.strip()) for x in ws_bin_str.split(",")]], with the defaults
    on [ValueError]. *)
Definition parse_ws_bins (ws_bin_str : string) : list cell :=
  match mapM float_strip (split_on "," ws_bin_str) with
  | Some ws_bins => ws_bins
  | None => default_ws_bins
  end.
End WsBins.

(** *** Plant overview page: data quality and the turbine selector *)

(** A frame seen through [isnull()]: per column, its name and one flag per
    row. *)
Definition null_frame : Type := list (string * list bool).

(** [isnull().mean()] of one column: the share of missing values; NaN on
    a frame without rows. *)
Definition isnull_mean (col : list bool) : cell :=
  match col with
  | [] => NaN
  | _ =>
      Some (inject_Z (Z.of_nat (length (List.filter id col)))
            / inject_Z (Z.of_nat (length col)))
  end.

(** [nan_pct = scada.isnull().mean() * 100] *)
Definition nan_pct (scada : null_frame) : list (string * cell) :=
  List.map (fun c => (c.1, map_f (fun m => m * 100) (isnull_mean c.2))) scada.

(** [nan_pct[nan_pct > 0]]: the entries that are numbers above zero. *)
Definition positive (entry : string * cell) : option (string * Q) :=
  match entry.2 with
  | Some pct => if gt_f (Some pct) 0 then Some (entry.1, pct) else None
  | None => None
  end.

(** The order of [sort_values(ascending=False)]. *)
Definition pct_ge (a b : string * Q) : Prop := Qle_bool b.2 a.2 = true.

#[global] Instance pct_ge_dec : RelDecision pct_ge :=
  fun a b => decide (Qle_bool b.2 a.2 = true).

(** [quality_df]: the columns with missing values, largest share first.
    Any sort gives the properties below; the order among equal shares is
    not relied on. *)
Definition quality_df (scada : null_frame) : list (string * Q) :=
  merge_sort pct_ge (omap positive (nan_pct scada)).

(** The order of [sorted] on strings. *)
Definition str_le (a b : string) : Prop := String.leb a b = true.

#[global] Instance str_le_dec : RelDecision str_le :=
  fun a b => decide (String.leb a b = true).

(** [turbine_ids = sorted(scada["asset_id"].unique())] *)
Definition turbine_ids (asset_id : list string) : list string :=
  merge_sort str_le (unique asset_id).

(** [scada["asset_id"].nunique()] *)
Definition n_turbines (asset_id : list string) : nat :=
  length (unique asset_id).

(** [scada[scada["asset_id"] == selected_turbine]], seen through its
    [asset_id] column. *)
Definition turbine_data (asset_id : list string) (selected_turbine : string)
  : list string :=
  List.filter (fun t => String.eqb t selected_turbine) asset_id.

(** ** Sample frames *)

(** A sample row of turbine [t] at time [ts] with vane position [va] and
    temperature [ot]. *)
Definition sample_row (t : string) (ts : Z) (va ot : Q) : scada_row :=
  mk_scada (Some ts) t (Some 1) (Some 2) (Some 3) (Some va) (Some ot)
    (Some 5) (Some 6).

Definition nan_temp_row : scada_row :=
  mk_scada (Some 600%Z) "R80711" (Some 1) (Some 2) (Some 3) (Some 4) NaN
    (Some 5) (Some 6).

(** Three samples of one turbine with a stuck vane and a moving
    temperature. *)
Definition stuck_vane : list scada_row :=
  [sample_row "R80711" 0 7 10; sample_row "R80711" 600 7 11;
   sample_row "R80711" 1200 7 12].

(** Twenty samples of one turbine at a steady temperature; the vane is
    stuck over the first three samples only. *)
Definition steady_temperature : list scada_row :=
  List.map
    (fun i => sample_row "R80711" (Z.of_nat i * 600)
                (if (i <? 3)%nat then 7 else inject_Z (Z.of_nat i) + 10) 10)
    (seq 0 20).

(** An hourly reanalysis feed with the hours 2, 3 and 4 missing. *)
Definition gap_feed : list reanalysis_raw :=
  [mk_raw 0 (Some 1) (Some 2); mk_raw 3600 (Some 3) (Some 4);
   mk_raw 18000 (Some 5) (Some 6)].

(** An hourly reanalysis feed that repeats a timestamp. *)
Definition repeated_feed : list reanalysis_raw :=
  [mk_raw 0 (Some 1) (Some 2); mk_raw 3600 (Some 3) (Some 4);
   mk_raw 3600 (Some 3) (Some 4)].

(** A SCADA stream with one duplicate row, one out-of-range temperature and
    one run of five samples with a stuck vane, and a second turbine. *)
Definition mixed_stream : list scada_row :=
  [sample_row "R80711" 0 1 10;
   sample_row "R80721" 0 4 10;
   sample_row "R80711" 600 2 11;
   sample_row "R80711" 600 9 9;
   sample_row "R80711" 1200 3 50;
   sample_row "R80711" 1800 7 12;
   sample_row "R80711" 2400 7 13;
   sample_row "R80721" 600 5 10;
   sample_row "R80711" 3000 7 14;
   sample_row "R80711" 3600 7 15;
   sample_row "R80711" 4200 7 16;
   sample_row "R80711" 4800 8 17].

(** An hourly reanalysis feed without a gap. *)
Definition regular_feed : list reanalysis_raw :=
  [mk_raw 7200 (Some 1) (Some 2); mk_raw 10800 (Some 3) (Some 4);
   mk_raw 14400 (Some 5) (Some 6)].

(** A stand-in for the collaborator that is not among the sources: a
    direction that is never derived. *)
Definition no_direction : cell -> cell -> cell := fun _ _ => NaN.

(** A data directory that holds the archive, before and after the first
    extraction. *)
Definition la_haute_borne : FS.path := ["data"; "la_haute_borne"]%string.

Definition archive_only : gmap FS.path FS.node :=
  {[ ["data"]%string := FS.Dir;
     ["data"; "la_haute_borne.zip"]%string :=
       FS.Archive [(["plant_data.csv"]%string, Some "time_utc"%string)] ]}.

Definition extracted : gmap FS.path FS.node :=
  <[ ["data"; "la_haute_borne"; "plant_data.csv"]%string := FS.File "time_utc" ]>
    (<[ la_haute_borne := FS.Dir ]> archive_only).

(** The float nearest to -0.1, [-0x1.999999999999ap-4], in units of
    [2^-1074]. *)
Definition minus_tenth : Z := (-7205759403792794 * 2 ^ 1018)%Z.

(** Stand-ins for the readers: a file holds the name of the frame it reads
    as, and a text that names no frame does not parse. *)
Definition frame_named {A : Type} (frames : list (string * A)) (data : string)
  : option A :=
  snd <$> List.find (fun f => String.eqb f.1 data) frames.

(** A dataset directory that is already extracted, with its five files; the
    ERA5 file is a parameter. *)
Definition sample_dir (era5 : string) : gmap FS.path FS.node :=
  <[ la_haute_borne ++ ["la-haute-borne-data-2014-2015.csv"%string]
     := FS.File "mixed" ]>
  (<[ la_haute_borne ++ ["plant_data.csv"%string] := FS.File "one day" ]>
  (<[ la_haute_borne ++ ["merra2_la_haute_borne.csv"%string] := FS.File "gap" ]>
  (<[ la_haute_borne ++ ["era5_wind_la_haute_borne.csv"%string] := FS.File era5 ]>
  (<[ la_haute_borne ++ ["la-haute-borne_asset_table.csv"%string]
      := FS.File "two turbines" ]>
  (<[ la_haute_borne := FS.Dir ]> archive_only))))).

(** A run of the module installed beside ["data"], on these readers. *)
Definition sample_run (cwd : cell -> cell -> cell)
    (PlantData :
       gmap FS.path FS.node -> string -> FS.path ->
       list scada_clean_row -> list meter_row -> list curtail_row ->
       list asset_row -> list (string * list reanalysis_row) -> error + plant_data)
  : gmap FS.path FS.node -> exception + (gmap FS.path FS.node * plant_data) :=
  load_plant_data cwd
    (frame_named [("mixed"%string, mixed_stream)])
    (frame_named [("one day"%string, [mk_plant 0 (Some 1%Q) (Some 0%Q) (Some 0%Q)])])
    (frame_named [("gap"%string, gap_feed)])
    (frame_named [("gap"%string, gap_feed); ("repeated"%string, repeated_feed)])
    (frame_named [("two turbines"%string,
                   [mk_asset "R80711" "turbine"; mk_asset "R80721" "turbine"])])
    PlantData ["data"%string].

(** * Properties *)

(** ** Deduplicator *)

Lemma drop_duplicates_from_elem seen df r :
  r ∈ drop_duplicates_from seen df → (key r ∉ seen) ∧ r ∈ df.
Proof.
  revert seen. induction df as [|x df IH]; intros seen; simpl.
  - by intros ?%elem_of_nil.
  - destruct (decide (key x ∈ seen)) as [Hin|Hout].
    + intros Hr. destruct (IH _ Hr) as [? ?]. split; [done | by right].
    + intros [->|Hr]%elem_of_cons.
      * split; [done | by left].
      * destruct (IH _ Hr) as [Hk ?]. split; [|by right].
        intros Hs. apply Hk, elem_of_union. by right.
Qed.

Lemma drop_duplicates_from_NoDup seen df :
  NoDup (key <$> drop_duplicates_from seen df).
Proof.
  revert seen. induction df as [|x df IH]; intros seen; simpl.
  - constructor.
  - destruct (decide (key x ∈ seen)); [apply IH|].
    rewrite fmap_cons. constructor; [|apply IH].
    intros Hin. apply list_elem_of_fmap in Hin as (r & Hk & Hr).
    apply drop_duplicates_from_elem in Hr as [Hr _].
    apply Hr, elem_of_union. left. by apply elem_of_singleton.
Qed.

Lemma drop_duplicates_from_sublist seen df :
  sublist (drop_duplicates_from seen df) df.
Proof.
  revert seen. induction df as [|x df IH]; intros seen; simpl.
  - constructor.
  - destruct (decide (key x ∈ seen)).
    + by apply sublist_cons.
    + by apply sublist_skip.
Qed.

Lemma drop_duplicates_from_id seen df :
  NoDup (key <$> df) → (∀ r, r ∈ df → key r ∉ seen) →
  drop_duplicates_from seen df = df.
Proof.
  revert seen. induction df as [|x df IH]; intros seen Hnd Hseen; simpl; [done|].
  rewrite fmap_cons in Hnd. apply NoDup_cons in Hnd as [Hx Hnd].
  destruct (decide (key x ∈ seen)) as [Hin|_].
  - exfalso. apply (Hseen x); [by left | done].
  - f_equal. apply IH; [done|].
    intros r Hr. apply not_elem_of_union. split.
    + intros E%elem_of_singleton. apply Hx, list_elem_of_fmap. by exists r.
    + apply Hseen. by right.
Qed.

Lemma drop_duplicates_from_find seen df k :
  k ∉ seen →
  List.find (fun r => bool_decide (key r = k)) (drop_duplicates_from seen df)
  = List.find (fun r => bool_decide (key r = k)) df.
Proof.
  revert seen. induction df as [|x df IH]; intros seen Hk; simpl; [done|].
  destruct (decide (key x ∈ seen)) as [Hin|Hout].
  - rewrite bool_decide_eq_false_2; [by apply IH|]. by intros <-.
  - simpl. case_bool_decide as Hx; [done|].
    apply IH. intros [E%elem_of_singleton|Hs]%elem_of_union; [by apply Hx | done].
Qed.

(** C6. Deduplication on the key (timestamp, entity) keeps exactly one record
    per key, the first one of the input, in input order; applying it twice
    is applying it once, and a stream without duplicates is returned as it
    is. *)
Theorem drop_duplicates_keeps_first (df : list scada_row) :
  NoDup (key <$> drop_duplicates df)
  ∧ (∀ k, List.find (fun r => bool_decide (key r = k)) (drop_duplicates df)
          = List.find (fun r => bool_decide (key r = k)) df)
  ∧ sublist (drop_duplicates df) df
  ∧ drop_duplicates (drop_duplicates df) = drop_duplicates df
  ∧ (NoDup (key <$> df) → drop_duplicates df = df).
Proof.
  unfold drop_duplicates. split_and!.
  - apply drop_duplicates_from_NoDup.
  - intros k. apply drop_duplicates_from_find, not_elem_of_empty.
  - apply drop_duplicates_from_sublist.
  - apply drop_duplicates_from_id; [apply drop_duplicates_from_NoDup|].
    intros r _. apply not_elem_of_empty.
  - intros Hnd. apply drop_duplicates_from_id; [done|].
    intros r _. apply not_elem_of_empty.
Qed.

Lemma drop_duplicates_keeps_first_witness :
  drop_duplicates [sample_row "R80711" 0 1 10; sample_row "R80711" 600 1 10]
  = [sample_row "R80711" 0 1 10; sample_row "R80711" 600 1 10].
Proof.
  apply (drop_duplicates_keeps_first
           [sample_row "R80711" 0 1 10; sample_row "R80711" 600 1 10]).
  apply (bool_decide_unpack _). vm_compute. exact I.
Defined.

(** ** Range filter *)

Lemma in_temp_range_spec r :
  in_temp_range r = true ↔ ∃ x, Ot_avg r = Some x ∧ -15 <= x ∧ x <= 45.
Proof.
  unfold in_temp_range, ge_f, le_f. destruct (Ot_avg r) as [x|]; simpl.
  - rewrite andb_true_iff, !Qle_bool_iff. split.
    + intros [? ?]. by exists x.
    + by intros (y & [= <-] & ? & ?).
  - split; [done | by intros (? & [=] & _)].
Qed.

Lemma range_filter_app_cons pre r post :
  range_filter (pre ++ r :: post)
  = range_filter pre ++ (if in_temp_range r then [r] else []) ++ range_filter post.
Proof.
  unfold range_filter. rewrite List.filter_app. simpl.
  by destruct (in_temp_range r).
Qed.

(** C1, as the code has it.  The range filter keeps exactly the rows whose
    temperature reading lies in the inclusive range [-15, 45], unchanged and
    in order, and removes every other row whole: a row reading 50 degrees is
    removed from the stream, a row reading 44.9 degrees is kept as it is. *)
Theorem range_filter_removes_rows (pre post : list scada_row) (r : scada_row) :
  (in_temp_range r = true ↔ ∃ x, Ot_avg r = Some x ∧ -15 <= x ∧ x <= 45)
  ∧ range_filter (pre ++ r :: post)
    = range_filter pre ++ (if in_temp_range r then [r] else []) ++ range_filter post
  ∧ (∀ x, Ot_avg r = Some x → x == 50 →
       range_filter (pre ++ r :: post) = range_filter pre ++ range_filter post)
  ∧ (∀ x, Ot_avg r = Some x → x == 44.9 →
       range_filter (pre ++ r :: post) = range_filter pre ++ r :: range_filter post).
Proof.
  split_and!.
  - apply in_temp_range_spec.
  - apply range_filter_app_cons.
  - intros x Hx E. rewrite range_filter_app_cons.
    replace (in_temp_range r) with false; [done|].
    symmetry. apply not_true_is_false.
    intros (y & Hy & _ & Hle)%in_temp_range_spec.
    rewrite Hx in Hy. injection Hy as <-. rewrite E in Hle. by apply Hle.
  - intros x Hx E. rewrite range_filter_app_cons.
    replace (in_temp_range r) with true; [done|].
    symmetry. apply in_temp_range_spec. exists x.
    split; [done|]. rewrite E. split; by intros [=].
Qed.

Lemma range_filter_removes_rows_witness :
  range_filter [sample_row "R80711" 0 1 10; sample_row "R80711" 600 2 50;
                sample_row "R80711" 1200 3 44.9]
  = [sample_row "R80711" 0 1 10; sample_row "R80711" 1200 3 44.9].
Proof.
  destruct (range_filter_removes_rows [sample_row "R80711" 0 1 10]
              [sample_row "R80711" 1200 3 44.9] (sample_row "R80711" 600 2 50))
    as (_ & _ & H50 & _).
  exact (H50 50 eq_refl (Qeq_refl 50)).
Defined.

(** The claim of C1 as the spec words it fails: the row reading 50 degrees
    is not kept with a blank temperature cell, it is gone, from the range
    filter and from the cleaned frame. *)
Lemma range_filter_nulls_cell_counterexample :
  range_filter [sample_row "R80711" 0 1 50] = []
  ∧ range_filter [sample_row "R80711" 0 1 50]
    ≠ [null_Ot_avg (sample_row "R80711" 0 1 50)]
  ∧ _clean_scada [sample_row "R80711" 0 1 50] = [].
Proof. split_and!; [reflexivity | discriminate | reflexivity]. Qed.

(** C10. A row whose temperature is missing satisfies neither bound and is
    removed whole by the range filter, with all of its other fields. *)
Theorem range_filter_removes_nan_rows (pre post : list scada_row) (r : scada_row) :
  Ot_avg r = NaN →
  in_temp_range r = false
  ∧ range_filter (pre ++ r :: post) = range_filter pre ++ range_filter post
  ∧ range_filter [r] = [].
Proof.
  intros Hnan.
  assert (in_temp_range r = false) as Hr
    by (unfold in_temp_range; by rewrite Hnan).
  split_and!; [done | | ].
  - by rewrite range_filter_app_cons, Hr.
  - unfold range_filter. simpl. by rewrite Hr.
Qed.

Lemma range_filter_removes_nan_rows_witness :
  range_filter ([sample_row "R80711" 0 1 10] ++ nan_temp_row :: [])
  = range_filter [sample_row "R80711" 0 1 10] ++ range_filter [].
Proof.
  apply (range_filter_removes_nan_rows [sample_row "R80711" 0 1 10] [] nan_temp_row).
  reflexivity.
Defined.

(** ** Angle normalizer *)

(** The bounds of [Qfloor y], with the integer constants read as
    rationals. *)
Ltac floor_bounds y :=
  let Hlo := fresh "Hfloor" in
  let Hhi := fresh "Hfloor" in
  pose proof (Qfloor_le y) as Hlo;
  pose proof (Qlt_floor y) as Hhi;
  rewrite inject_Z_plus in Hhi;
  change (inject_Z 1) with 1 in Hhi.

Lemma div360 x : x == 360 * (x / 360).
Proof. field. Qed.

Lemma mod360_range x : 0 <= mod360 x ∧ mod360 x < 360.
Proof.
  unfold mod360. floor_bounds (x / 360).
  pose proof (div360 x). split; lra.
Qed.

Lemma Qfloor_unique (y : Q) (k : Z) :
  inject_Z k <= y → y < inject_Z k + 1 → Qfloor y = k.
Proof.
  intros Hlo Hhi. floor_bounds y.
  assert (inject_Z k < inject_Z (Qfloor y + 1)) as H1
    by (rewrite inject_Z_plus; change (inject_Z 1) with 1; lra).
  assert (inject_Z (Qfloor y) < inject_Z (k + 1)) as H2
    by (rewrite inject_Z_plus; change (inject_Z 1) with 1; lra).
  rewrite <- Zlt_Qlt in H1, H2. lia.
Qed.

Lemma normalize_angle_some x :
  normalize_angle (Some x)
  = Some (if Qle_bool (mod360 x) 180 then mod360 x else mod360 x - 360).
Proof.
  unfold normalize_angle. simpl. by destruct (Qle_bool (mod360 x) 180).
Qed.

Lemma normalize_angle_range x :
  ∃ y, normalize_angle (Some x) = Some y ∧ -180 < y ∧ y <= 180.
Proof.
  rewrite normalize_angle_some. eexists. split; [reflexivity|].
  destruct (mod360_range x) as [Hlo Hhi].
  destruct (Qle_bool (mod360 x) 180) eqn:Hle.
  - apply Qle_bool_iff in Hle. lra.
  - assert (¬ mod360 x <= 180) as Hgt
      by (rewrite <- Qle_bool_iff; congruence).
    lra.
Qed.

(** *** On binary64 *)

Local Open Scope Z_scope.

Lemma ulps_per_unit_pos : 0 < ulps_per_unit.
Proof. reflexivity. Qed.

Lemma ulp_exp_nonneg n : 0 ≤ ulp_exp n.
Proof. unfold ulp_exp. lia. Qed.

Lemma abs_lt_pow2 n : Z.abs n < 2 ^ (ulp_exp n + 53).
Proof.
  pose proof (ulp_exp_nonneg n) as Hk.
  destruct (Z.eq_dec n 0) as [->|Hn].
  - simpl. apply Z.pow_pos_nonneg; lia.
  - destruct (Z.log2_spec (Z.abs n)) as [_ Hhi]; [lia|].
    eapply Z.lt_le_trans; [exact Hhi|].
    apply Z.pow_le_mono_r; [lia|]. unfold ulp_exp. lia.
Qed.

Lemma ulp_exp_le n m e :
  n = m * 2 ^ e → Z.abs m < 2 ^ 53 → 0 ≤ e → ulp_exp n ≤ e.
Proof.
  intros -> Hm He. unfold ulp_exp.
  destruct (Z.eq_dec m 0) as [->|Hm0]; [simpl; lia|].
  assert (0 < 2 ^ e) as Hp by (by apply Z.pow_pos_nonneg).
  assert (0 < Z.abs (m * 2 ^ e)) as Hpos by (rewrite Z.abs_mul; nia).
  assert (Z.abs (m * 2 ^ e) < 2 ^ (53 + e)) as Hlt.
  { rewrite Z.abs_mul, Z.pow_add_r, (Z.abs_eq (2 ^ e)) by lia.
    apply Z.mul_lt_mono_pos_r; lia. }
  apply Z.log2_lt_pow2 in Hlt; lia.
Qed.

(** [binary64] is the set of the finite floats: a significand of at most
    53 bits at an exponent between that of the subnormals and the
    largest. *)
Lemma binary64_spec n :
  binary64 n = true ↔ ∃ m e, n = m * 2 ^ e ∧ Z.abs m < 2 ^ 53 ∧ 0 ≤ e ≤ 2045.
Proof.
  unfold binary64. rewrite andb_true_iff, Z.ltb_lt, Z.eqb_eq. split.
  - intros [Hmax Hmod].
    pose proof (ulp_exp_nonneg n) as Hk. pose proof (abs_lt_pow2 n) as Hlt.
    set (k := ulp_exp n) in *.
    assert (0 < 2 ^ k) as Hp by (by apply Z.pow_pos_nonneg).
    exists (n / 2 ^ k), k.
    assert (n = n / 2 ^ k * 2 ^ k) as E.
    { rewrite Z.mul_comm. apply Z_div_exact_full_2; lia. }
    split_and!; [exact E | | done |].
    + rewrite Z.pow_add_r in Hlt by lia.
      rewrite E, Z.abs_mul, (Z.abs_eq (2 ^ k)) in Hlt by lia.
      rewrite (Z.mul_comm (2 ^ k)) in Hlt.
      by apply Z.mul_lt_mono_pos_r in Hlt.
    + unfold k, ulp_exp. destruct (Z.eq_dec n 0) as [->|Hn]; [simpl; lia|].
      apply Z.log2_lt_pow2 in Hmax; lia.
  - intros (m & e & E & Hm & He).
    pose proof (ulp_exp_le n m e E Hm ltac:(lia)) as Hke.
    pose proof (ulp_exp_nonneg n) as Hk.
    assert (0 < 2 ^ e) as Hp by (apply Z.pow_pos_nonneg; lia).
    split.
    + rewrite E, Z.abs_mul, (Z.abs_eq (2 ^ e)) by lia.
      change (2 ^ 2098) with (2 ^ 53 * 2 ^ 2045).
      assert (2 ^ e ≤ 2 ^ 2045) by (apply Z.pow_le_mono_r; lia).
      apply Z.lt_le_trans with (2 ^ 53 * 2 ^ e).
      * apply Z.mul_lt_mono_pos_r; lia.
      * apply Z.mul_le_mono_nonneg_l; lia.
    + set (k := ulp_exp n) in *. rewrite E.
      replace e with ((e - k) + k) by lia.
      rewrite Z.pow_add_r by lia. rewrite Z.mul_assoc.
      apply Z_mod_mult.
Qed.

Lemma div_nearest_even_exact c b : 0 < b → div_nearest_even (c * b) b = c.
Proof.
  intros Hb. unfold div_nearest_even.
  rewrite Z_mod_mult, Z_div_mult by lia.
  simpl. by destruct b.
Qed.

Lemma div_nearest_even_le a b c :
  0 < b → a ≤ c * b → div_nearest_even a b ≤ c.
Proof.
  intros Hb Hle. unfold div_nearest_even.
  pose proof (Z_div_mod_eq_full a b) as E.
  pose proof (Z.mod_pos_bound a b Hb) as [Hr0 Hr1].
  assert (a / b ≤ c) as Hq by nia.
  destruct (Z.eq_dec (a / b) c) as [Hc|Hc].
  - assert (a mod b = 0) as -> by nia.
    simpl. by destruct b; try lia.
  - destruct (2 * (a mod b) ?= b); [destruct (Z.even (a / b))|..]; lia.
Qed.

Lemma div_nearest_even_ge a b c :
  0 < b → c * b ≤ a → c ≤ div_nearest_even a b.
Proof.
  intros Hb Hle. unfold div_nearest_even.
  pose proof (Z_div_mod_eq_full a b) as E.
  pose proof (Z.mod_pos_bound a b Hb) as [Hr0 Hr1].
  assert (c ≤ a / b) as Hq by nia.
  destruct (2 * (a mod b) ?= b); [destruct (Z.even (a / b))|..]; lia.
Qed.

(** A float is stored as it is. *)
Lemma round64_exact n : binary64 n = true → round64 n = n.
Proof.
  unfold binary64. rewrite andb_true_iff, Z.eqb_eq. intros [_ Hmod].
  unfold round64. pose proof (ulp_exp_nonneg n) as Hk.
  set (k := ulp_exp n) in *.
  assert (0 < 2 ^ k) as Hp by (by apply Z.pow_pos_nonneg).
  assert (n = n / 2 ^ k * 2 ^ k) as E.
  { rewrite Z.mul_comm. apply Z_div_exact_full_2; lia. }
  rewrite E at 1. rewrite div_nearest_even_exact by done. by rewrite <- E.
Qed.

Lemma pow2_divide j k x : 0 ≤ k ≤ j → (2 ^ j | x) → (2 ^ k | x).
Proof.
  intros Hkj [y ->]. exists (y * 2 ^ (j - k)).
  rewrite <- Z.mul_assoc, <- Z.pow_add_r by lia. do 2 f_equal. lia.
Qed.

(** Rounding does not cross a number of the grid it rounds to. *)
Lemma round64_le a b : (2 ^ ulp_exp a | b) → a ≤ b → round64 a ≤ b.
Proof.
  intros [c ->] Hle. unfold round64.
  pose proof (ulp_exp_nonneg a) as Hk. set (k := ulp_exp a) in *.
  assert (0 < 2 ^ k) as Hp by (by apply Z.pow_pos_nonneg).
  apply Z.mul_le_mono_nonneg_r; [lia|]. by apply div_nearest_even_le.
Qed.

Lemma round64_ge a b : (2 ^ ulp_exp a | b) → b ≤ a → b ≤ round64 a.
Proof.
  intros [c ->] Hle. unfold round64.
  pose proof (ulp_exp_nonneg a) as Hk. set (k := ulp_exp a) in *.
  assert (0 < 2 ^ k) as Hp by (by apply Z.pow_pos_nonneg).
  apply Z.mul_le_mono_nonneg_r; [lia|]. by apply div_nearest_even_ge.
Qed.

(** What rounding returns is a float. *)
Lemma round64_binary64 a : Z.abs a < 2 ^ 2097 → binary64 (round64 a) = true.
Proof.
  intros Hmax. apply binary64_spec.
  pose proof (ulp_exp_nonneg a) as Hk. pose proof (abs_lt_pow2 a) as Hlt.
  assert (ulp_exp a ≤ 2044) as Hk'.
  { unfold ulp_exp. destruct (Z.eq_dec a 0) as [->|Ha]; [simpl; lia|].
    apply Z.log2_lt_pow2 in Hmax; lia. }
  unfold round64. set (k := ulp_exp a) in *.
  assert (0 < 2 ^ k) as Hp by (by apply Z.pow_pos_nonneg).
  rewrite Z.pow_add_r, Z.mul_comm in Hlt by lia.
  assert (div_nearest_even a (2 ^ k) ≤ 2 ^ 53) as Hhi
    by (apply div_nearest_even_le; lia).
  assert (- 2 ^ 53 ≤ div_nearest_even a (2 ^ k)) as Hlo
    by (apply div_nearest_even_ge; lia).
  set (m := div_nearest_even a (2 ^ k)) in *.
  destruct (Z.eq_dec m (2 ^ 53)) as [E|Hne1];
    [|destruct (Z.eq_dec m (- 2 ^ 53)) as [E|Hne2]].
  - exists (2 ^ 52), (k + 1). split_and!; [|done|lia|lia].
    rewrite E, Z.pow_add_r by lia. change (2 ^ 53) with (2 ^ 52 * 2 ^ 1). lia.
  - exists (- 2 ^ 52), (k + 1). split_and!; [|done|lia|lia].
    rewrite E, Z.pow_add_r by lia. change (2 ^ 53) with (2 ^ 52 * 2 ^ 1). lia.
  - exists m, k. split_and!; [done|lia|lia|lia].
Qed.

(** Subtracting a multiple of [2^1077] from a float without growing it
    gives a float: such a subtraction is exact. *)
Lemma binary64_sub n d :
  binary64 n = true → (2 ^ 1077 | d) → Z.abs (n - d) ≤ Z.abs n →
  Z.abs (n - d) < 2 ^ 1130 → binary64 (n - d) = true.
Proof.
  rewrite !binary64_spec. intros (m & e & -> & Hm & He) Hd Hle Hlt.
  assert (0 < 2 ^ e) as Hp by (apply Z.pow_pos_nonneg; lia).
  destruct (Z_le_gt_dec e 1077) as [Hsmall|Hbig].
  - destruct (pow2_divide 1077 e d ltac:(lia) Hd) as [d' ->].
    exists (m - d'), e. split_and!; [lia| |lia|lia].
    replace (m * 2 ^ e - d' * 2 ^ e) with ((m - d') * 2 ^ e) in Hle by lia.
    rewrite !Z.abs_mul, (Z.abs_eq (2 ^ e)) in Hle by lia.
    apply Z.mul_le_mono_pos_r in Hle; lia.
  - destruct Hd as [d' ->].
    assert (2 ^ e = 2 ^ (e - 1077) * 2 ^ 1077) as Epow
      by (rewrite <- Z.pow_add_r by lia; f_equal; lia).
    set (p := 2 ^ 1077) in *. assert (0 < p) as Hpp by done.
    exists (m * 2 ^ (e - 1077) - d'), 1077. fold p.
    split_and!; [rewrite Epow; lia| |lia|lia].
    replace (m * 2 ^ e - d' * p) with ((m * 2 ^ (e - 1077) - d') * p) in Hlt
      by (rewrite Epow; lia).
    rewrite Z.abs_mul, (Z.abs_eq p) in Hlt by lia.
    change (2 ^ 1130) with (2 ^ 53 * p) in Hlt.
    apply Z.mul_lt_mono_pos_r in Hlt; lia.
Qed.

Lemma degrees_360 : degrees 360 = 45 * 2 ^ 1077.
Proof. reflexivity. Qed.

Lemma full_turn_divide : (2 ^ 1077 | degrees 360).
Proof. exists 45. apply degrees_360. Qed.

Lemma full_turn_grid a : 0 ≤ a ≤ degrees 360 → (2 ^ ulp_exp a | degrees 360).
Proof.
  intros [Hlo Hhi]. apply (pow2_divide 1077); [|apply full_turn_divide].
  split; [apply ulp_exp_nonneg|].
  assert (Z.log2 a ≤ Z.log2 (degrees 360)) as Hlog by (by apply Z.log2_le_mono).
  change (Z.log2 (degrees 360)) with 1082 in Hlog.
  unfold ulp_exp. rewrite Z.abs_eq by done. lia.
Qed.

Lemma full_turn_bound : degrees 360 < 2 ^ 1130.
Proof. reflexivity. Qed.

(** A sum that lies within the first turn is stored as a float of the first
    turn: 0 and 360 are floats, and rounding does not cross them. *)
Lemma round64_turn a :
  0 ≤ a ≤ degrees 360 →
  0 ≤ round64 a ≤ degrees 360 ∧ binary64 (round64 a) = true.
Proof.
  intros Ha. split_and!.
  - apply round64_ge; [apply Z.divide_0_r | lia].
  - apply round64_le; [by apply full_turn_grid | lia].
  - apply round64_binary64. pose proof full_turn_bound.
    assert (2 ^ 1130 < 2 ^ 2097) by done. lia.
Qed.

(** [fmod] is exact: what it returns on a float is a float. *)
Lemma rem_binary64 x :
  binary64 x = true → binary64 (Z.rem x (degrees 360)) = true.
Proof.
  intros Hx. pose proof ulps_per_unit_pos as HU.
  assert (degrees 360 ≠ 0) as HC by (unfold degrees; lia).
  pose proof (Z.quot_rem' x (degrees 360)) as E.
  pose proof (Z.rem_bound_abs x (degrees 360) HC) as Hlt.
  assert (Z.abs (Z.rem x (degrees 360)) ≤ Z.abs x) as Hle.
  { rewrite <- Z.rem_abs_l by done. apply Z.rem_le; unfold degrees; lia. }
  replace (Z.rem x (degrees 360))
    with (x - degrees 360 * (x ÷ degrees 360)) in * by lia.
  apply binary64_sub; [done | | done |].
  - apply Z.divide_mul_l, full_turn_divide.
  - pose proof full_turn_bound. unfold degrees in *. lia.
Qed.

(** The subtraction of line 62 is exact. *)
Lemma sub_turn_exact m :
  binary64 m = true → degrees 180 ≤ m ≤ degrees 360 →
  binary64 (m - degrees 360) = true ∧ sub64 m (degrees 360) = m - degrees 360.
Proof.
  intros Hm Hr. pose proof ulps_per_unit_pos as HU.
  assert (binary64 (m - degrees 360) = true) as Hb.
  { apply binary64_sub; [done | apply full_turn_divide | |].
    - unfold degrees in *. lia.
    - pose proof full_turn_bound. unfold degrees in *. lia. }
  split; [done|]. unfold sub64. by apply round64_exact.
Qed.

(** Line 60 on a float: the remainder is a float between 0 and 360, both
    included; the one rounding is that of [fmod + 360] for a negative
    [fmod]. *)
Lemma remainder64_360 x :
  binary64 x = true →
  let r := Z.rem x (degrees 360) in
  remainder64 x (degrees 360) = (if r <? 0 then round64 (r + degrees 360) else r)
  ∧ 0 ≤ remainder64 x (degrees 360) ≤ degrees 360
  ∧ binary64 (remainder64 x (degrees 360)) = true.
Proof.
  intros Hx r. pose proof ulps_per_unit_pos as HU.
  assert (degrees 360 ≠ 0) as HC by (unfold degrees; lia).
  pose proof (Z.rem_bound_abs x (degrees 360) HC) as Hlt.
  pose proof (rem_binary64 x Hx) as Hr. fold r in Hlt, Hr.
  assert (remainder64 x (degrees 360)
          = if r <? 0 then round64 (r + degrees 360) else r) as E.
  { unfold remainder64, add64. fold r.
    assert ((degrees 360 <? 0) = false) as -> by (unfold degrees; lia).
    destruct (Z.eqb_spec r 0) as [->|Hr0]; [done|].
    by destruct (r <? 0). }
  rewrite E. split; [done|].
  destruct (Z.ltb_spec r 0) as [Hneg|Hpos].
  - destruct (round64_turn (r + degrees 360)); [|done].
    unfold degrees in *. lia.
  - split; [|done]. unfold degrees in *. lia.
Qed.

(** The float remainder is the exact remainder, rounded once. *)
Lemma remainder64_round n :
  binary64 n = true →
  remainder64 n (degrees 360) = round64 (n mod degrees 360).
Proof.
  intros Hn. pose proof ulps_per_unit_pos as HU.
  assert (0 < degrees 360) as HC by (unfold degrees; lia).
  destruct (remainder64_360 n Hn) as (-> & _).
  pose proof (rem_binary64 n Hn) as Hb.
  pose proof (Z.quot_rem' n (degrees 360)) as E.
  pose proof (Z.rem_bound_abs n (degrees 360) ltac:(lia)) as Hlt.
  destruct (Z.ltb_spec (Z.rem n (degrees 360)) 0) as [Hneg|Hpos].
  - f_equal. apply (Z.mod_unique_pos _ _ (n ÷ degrees 360 - 1)); lia.
  - rewrite <- (Z.mod_unique_pos n (degrees 360) (n ÷ degrees 360)
                  (Z.rem n (degrees 360))) by lia.
    by rewrite round64_exact.
Qed.

Lemma normalize_angle64_some x :
  normalize_angle64 (Some x)
  = Some (if degrees 180 <? remainder64 x (degrees 360)
          then sub64 (remainder64 x (degrees 360)) (degrees 360)
          else remainder64 x (degrees 360)).
Proof. unfold normalize_angle64. by destruct (_ <? _). Qed.

Lemma normalize_angle64_range x :
  binary64 x = true →
  ∃ y, normalize_angle64 (Some x) = Some y
    ∧ binary64 y = true ∧ - degrees 180 < y ≤ degrees 180.
Proof.
  intros Hx. rewrite normalize_angle64_some. eexists. split; [done|].
  destruct (remainder64_360 x Hx) as (_ & Hm & Hb).
  pose proof ulps_per_unit_pos as HU.
  destruct (Z.ltb_spec (degrees 180) (remainder64 x (degrees 360))) as [Hgt|Hle].
  - destruct (sub_turn_exact _ Hb) as [Hb' ->]; [lia|].
    split; [done|]. unfold degrees in *. lia.
  - split; [done|]. unfold degrees in *. lia.
Qed.

(** A canonical reading that is not negative passes through untouched: no
    operation rounds on it. *)
Lemma normalize_angle64_nonneg x :
  0 ≤ x ≤ degrees 180 → normalize_angle64 (Some x) = Some x.
Proof.
  intros Hx. pose proof ulps_per_unit_pos as HU.
  rewrite normalize_angle64_some. f_equal.
  assert (remainder64 x (degrees 360) = x) as ->.
  { unfold remainder64. rewrite Z.rem_small by (unfold degrees in *; lia).
    assert ((degrees 360 <? 0) = false) as -> by (unfold degrees; lia).
    destruct (Z.eqb_spec x 0) as [->|]; [done|].
    assert ((x <? 0) = false) as -> by lia. done. }
  assert ((degrees 180 <? x) = false) as -> by lia. done.
Qed.

(** A canonical negative reading goes through [x + 360], rounded, and
    back: it comes out as it went in exactly when [x + 360] is a float. *)
Lemma normalize_angle64_negative x :
  binary64 x = true → - degrees 180 < x < 0 →
  normalize_angle64 (Some x) = Some x ↔ binary64 (x + degrees 360) = true.
Proof.
  intros Hx Hr. pose proof ulps_per_unit_pos as HU.
  rewrite normalize_angle64_some.
  assert (remainder64 x (degrees 360) = round64 (x + degrees 360)) as ->.
  { destruct (remainder64_360 x Hx) as (-> & _).
    assert (Z.rem x (degrees 360) = x) as ->
      by (apply Z.rem_small_iff; unfold degrees in *; lia).
    assert ((x <? 0) = true) as -> by lia. done. }
  destruct (round64_turn (x + degrees 360)) as [Hm Hb];
    [unfold degrees in *; lia|].
  split.
  - destruct (Z.ltb_spec (degrees 180) (round64 (x + degrees 360))) as [Hgt|Hle];
      intros [= E]; [|lia].
    destruct (sub_turn_exact _ Hb) as [_ E']; [lia|].
    rewrite E' in E.
    by replace (x + degrees 360) with (round64 (x + degrees 360)) by lia.
  - intros Hsum. rewrite (round64_exact _ Hsum).
    assert ((degrees 180 <? x + degrees 360) = true) as ->
      by (unfold degrees in *; lia).
    unfold sub64. replace (x + degrees 360 - degrees 360) with x by lia.
    by rewrite round64_exact.
Qed.

(** C5, as the code has it.  Lines 60 to 62 work on binary64.  On every
    finite reading the remainder of line 60 lies between 0 and 360, both
    ends included (the upper end is reached by rounding), and the
    normalizer returns a float of (-180, 180] on which it is a no-op:
    applying it twice is applying it once.  A canonical reading that is not
    negative is left as it is; a canonical negative reading is left as it is
    exactly when the reading plus 360 is a float too.  A NaN stays a NaN;
    370 goes to 10 and 190 to -170. *)
Theorem normalize_angle64_canonical (x : Z) (Hx : binary64 x = true) :
  0 ≤ remainder64 x (degrees 360) ≤ degrees 360
  ∧ (∃ y, normalize_angle64 (Some x) = Some y
       ∧ binary64 y = true
       ∧ - degrees 180 < y ≤ degrees 180
       ∧ normalize_angle64 (Some y) = Some y)
  ∧ (0 ≤ x ≤ degrees 180 → normalize_angle64 (Some x) = Some x)
  ∧ (- degrees 180 < x < 0 →
     normalize_angle64 (Some x) = Some x ↔ binary64 (x + degrees 360) = true)
  ∧ normalize_angle64 None = None
  ∧ normalize_angle64 (Some (degrees 370)) = Some (degrees 10)
  ∧ normalize_angle64 (Some (degrees 190)) = Some (degrees (-170)).
Proof.
  split; [by destruct (remainder64_360 x Hx) as (_ & Hm & _)|].
  split_and!.
  - destruct (normalize_angle64_range x Hx) as (y & E & Hb & Hr).
    exists y. do 3 (split; [done|]).
    destruct (Z_lt_le_dec y 0) as [Hneg|Hpos].
    + apply normalize_angle64_negative; [done | lia |].
      rewrite normalize_angle64_some in E.
      destruct (remainder64_360 x Hx) as (_ & Hm & Hbm).
      pose proof ulps_per_unit_pos as HU. revert E.
      destruct (Z.ltb_spec (degrees 180) (remainder64 x (degrees 360)))
        as [Hgt|Hle]; intros [= E]; [|lia].
      destruct (sub_turn_exact _ Hbm) as [_ E']; [lia|].
      rewrite E' in E. rewrite <- E.
      by replace (remainder64 x (degrees 360) - degrees 360 + degrees 360)
        with (remainder64 x (degrees 360)) by lia.
    + apply normalize_angle64_nonneg. lia.
  - apply normalize_angle64_nonneg.
  - by apply normalize_angle64_negative.
  - done.
  - by vm_compute.
  - by vm_compute.
Qed.

Lemma normalize_angle64_canonical_witness :
  ∃ y, normalize_angle64 (Some minus_tenth) = Some y
    ∧ binary64 y = true
    ∧ - degrees 180 < y ≤ degrees 180
    ∧ normalize_angle64 (Some y) = Some y.
Proof.
  destruct (normalize_angle64_canonical minus_tenth) as (_ & Hy & _).
  - vm_compute. reflexivity.
  - exact Hy.
Defined.

(** The claim of C5 as the spec words it fails: the float nearest to -0.1
    is an already-canonical value, and the normalizer changes it, to
    -0.10000000000002274: line 60 stores [-0.1 + 360] as the float nearest
    to 359.9, which is not 360 more than the reading.  And the remainder of
    line 60 is not always below 360: on the smallest negative float it is
    360 itself. *)
Lemma canonical_reading_changed_counterexample :
  binary64 minus_tenth = true
  ∧ - degrees 180 < minus_tenth ≤ degrees 180
  ∧ normalize_angle64 (Some minus_tenth) = Some (-7205759403794432 * 2 ^ 1018)
  ∧ normalize_angle64 (Some minus_tenth) ≠ Some minus_tenth
  ∧ binary64 (-1) = true
  ∧ remainder64 (-1) (degrees 360) = degrees 360.
Proof. split_and!; by vm_compute. Qed.

(** The arithmetic above is that of the floats of the kernel: on the
    reading -0.1, [(x + 360.0) - 360.0] computed there is what the
    normalizer returns, and a quarter turn back, [-90.0], is returned as it
    is. *)
Example normalize_angle64_kernel :
  round64 (- ulps_per_unit / 10) = minus_tenth
  ∧ ulps (of_ulps minus_tenth) = Some minus_tenth
  ∧ ulps (of_ulps (degrees 360)) = Some (degrees 360)
  ∧ ulps (PrimFloat.sub
            (PrimFloat.add (of_ulps minus_tenth) (of_ulps (degrees 360)))
            (of_ulps (degrees 360)))
    = normalize_angle64 (Some minus_tenth)
  ∧ ulps (PrimFloat.sub
            (PrimFloat.add (of_ulps (degrees (-90))) (of_ulps (degrees 360)))
            (of_ulps (degrees 360)))
    = normalize_angle64 (Some (degrees (-90)))
  ∧ normalize_angle64 (Some (degrees (-90))) = Some (degrees (-90)).
Proof. split_and!; vm_compute; reflexivity. Qed.

Local Close Scope Z_scope.

(** *** The exact normalizer and the binary64 one *)

Lemma value_degrees d : value (degrees d) == inject_Z d.
Proof.
  unfold value, degrees. rewrite inject_Z_mult. field.
  intros E. pose proof ulps_per_unit_pos as HU.
  change 0 with (inject_Z 0) in E. rewrite inject_Z_injective in E. lia.
Qed.

Lemma value_le a b : value a <= value b ↔ (a ≤ b)%Z.
Proof.
  pose proof ulps_per_unit_pos as HU.
  assert (0 < inject_Z ulps_per_unit) as Hu
    by (change 0 with (inject_Z 0); by rewrite <- Zlt_Qlt).
  unfold value. rewrite Zle_Qle. split; intros Hle.
  - apply (Qmult_le_r _ _ (/ inject_Z ulps_per_unit));
      [by apply Qinv_lt_0_compat | exact Hle].
  - apply (Qmult_le_r _ _ (/ inject_Z ulps_per_unit)) in Hle;
      [exact Hle | by apply Qinv_lt_0_compat].
Qed.

Lemma value_minus a b : value (a - b) == value a - value b.
Proof.
  pose proof ulps_per_unit_pos as HU.
  unfold value, Z.sub. rewrite inject_Z_plus, inject_Z_opp. field.
  intros E. change 0 with (inject_Z 0) in E.
  rewrite inject_Z_injective in E. lia.
Qed.

(** [mod360] is the remainder of line 60 before it is stored. *)
Lemma mod360_value n : mod360 (value n) == value (n mod degrees 360).
Proof.
  pose proof ulps_per_unit_pos as HU.
  assert (0 < inject_Z ulps_per_unit) as Hu
    by (change 0 with (inject_Z 0); by rewrite <- Zlt_Qlt).
  assert (0 < degrees 360)%Z as HC by (unfold degrees; lia).
  pose proof (Z_div_mod_eq_full n (degrees 360)) as E.
  pose proof (Z.mod_pos_bound n (degrees 360) HC) as [Hr0 Hr1].
  assert (inject_Z (degrees 360) == 360 * inject_Z ulps_per_unit) as EC
    by (unfold degrees; by rewrite inject_Z_mult).
  assert (inject_Z n
          == inject_Z (degrees 360) * inject_Z (n / degrees 360)
             + inject_Z (n mod degrees 360)) as EQ
    by (by rewrite <- inject_Z_mult, <- inject_Z_plus, <- E).
  assert (0 <= inject_Z (n mod degrees 360)) as Q0
    by (change 0 with (inject_Z 0); by rewrite <- Zle_Qle).
  assert (inject_Z (n mod degrees 360) < inject_Z (degrees 360)) as Q1
    by (by rewrite <- Zlt_Qlt).
  unfold mod360.
  rewrite (Qfloor_unique (value n / 360) (n / degrees 360)).
  - unfold value. rewrite EQ, EC. field. lra.
  - unfold value. apply Qle_shift_div_l; [lra|]. apply Qle_shift_div_l; [done|].
    rewrite EQ, EC. lra.
  - unfold value. apply Qlt_shift_div_r; [lra|]. apply Qlt_shift_div_r; [done|].
    rewrite EQ. rewrite EC in *. lra.
Qed.

(** The exact normalizer is the binary64 one without the rounding of line
    60: the two agree on every float whose exact remainder is a float,
    which every float that is not negative is. *)
Lemma normalize_angle_value n :
  binary64 n = true →
  (0 ≤ n)%Z ∨ binary64 (n mod degrees 360) = true →
  cell_eq (normalize_angle (Some (value n)))
          (value <$> normalize_angle64 (Some n)).
Proof.
  intros Hn Hm. pose proof ulps_per_unit_pos as HU.
  assert (0 < degrees 360)%Z as HC by (unfold degrees; lia).
  assert (binary64 (n mod degrees 360) = true) as Hb.
  { destruct Hm as [Hpos|Hb]; [|done].
    rewrite <- Z.rem_mod_nonneg by lia. by apply rem_binary64. }
  pose proof (Z.mod_pos_bound n (degrees 360) HC) as [Hr0 Hr1].
  rewrite normalize_angle_some, normalize_angle64_some.
  rewrite (remainder64_round n Hn), (round64_exact _ Hb).
  pose proof (mod360_value n) as E.
  destruct (Z.ltb_spec (degrees 180) (n mod degrees 360)) as [Hgt|Hle].
  - destruct (sub_turn_exact _ Hb) as [_ ->]; [lia|]. simpl.
    destruct (Qle_bool (mod360 (value n)) 180) eqn:Hq.
    + apply Qle_bool_iff in Hq. rewrite E, <- (value_degrees 180) in Hq.
      apply (proj1 (value_le _ _)) in Hq. lia.
    + simpl. rewrite value_minus, value_degrees, E. done.
  - simpl. destruct (Qle_bool (mod360 (value n)) 180) eqn:Hq; [done|].
    apply (proj2 (value_le _ _)) in Hle.
    rewrite <- E, value_degrees in Hle.
    change (inject_Z 180) with 180 in Hle.
    apply Qle_bool_iff in Hle. congruence.
Qed.

(** ** Energy integrator *)

(** C7. The energy of an interval is the power times the duration of the
    interval (for the SCADA stream, ten minutes in hours), so it is linear in
    the power: at any fixed duration, twice the power gives twice the
    energy, and no power gives no energy. *)
Theorem energy_linear_in_power (p d : Q) :
  cell_eq (convert_power_to_energy (Some p) d) (Some (p * (d / 60)))
  ∧ cell_eq (convert_power_to_energy (Some (2 * p)) d)
      (map_f (Qmult 2) (convert_power_to_energy (Some p) d))
  ∧ cell_eq (convert_power_to_energy (Some 0) d) (Some 0)
  ∧ cell_eq (energy_of (Some p)) (Some (p * (10 / 60)))
  ∧ cell_eq (energy_of (Some (2 * p))) (map_f (Qmult 2) (energy_of (Some p)))
  ∧ cell_eq (energy_of (Some 0)) (Some 0)
  ∧ energy_of NaN = NaN.
Proof.
  unfold energy_of, convert_power_to_energy, scada_freq. simpl.
  split_and!; try done; try field; try lra.
Qed.

(** ** Stuck-sensor detector *)

Local Close Scope Q_scope.

Lemma map_fmap {A B : Type} (f : A → B) (l : list A) : List.map f l = f <$> l.
Proof. induction l as [|x l IH]; simpl; [done | by rewrite IH]. Qed.

Section DetectorFacts.
Context {A : Type} (same : A → A → bool).

Lemma unresponsive_flag_length (xs : list A) w :
  length (unresponsive_flag same xs w) = length xs.
Proof. unfold unresponsive_flag. by rewrite length_map, length_seq. Qed.

Lemma unresponsive_flag_lookup (xs : list A) w p :
  p < length xs →
  unresponsive_flag same xs w !! p
  = Some (existsb (flagged same xs w) (seq p w)).
Proof.
  intros Hp. unfold unresponsive_flag.
  by rewrite map_fmap, list_lookup_fmap, lookup_seq_lt.
Qed.

Lemma constant_spec (win : list A) :
  constant same win = true ↔
  ∀ x, win !! 0 = Some x →
       ∀ i y, 0 < i → win !! i = Some y → same x y = true.
Proof.
  destruct win as [|x rest]; simpl.
  - split; [by intros _ x [=] | done].
  - rewrite forallb_forall. split.
    + intros H ? [= <-] i y Hi Hy. destruct i as [|i]; [lia|].
      apply H, list_elem_of_In, list_elem_of_lookup. by exists i.
    + intros H y Hy. apply list_elem_of_In, list_elem_of_lookup in Hy as [i Hi].
      apply (H x eq_refl (S i) y); [lia | done].
Qed.

Lemma window_lookup (xs : list A) w e i :
  window xs w e !! i = if decide (i < w) then xs !! (S e - w + i) else None.
Proof. unfold window. by rewrite lookup_take, lookup_drop. Qed.

Lemma flagged_spec (xs : list A) w e :
  0 < w →
  flagged same xs w e = true ↔
  w ≤ S e ∧ e < length xs ∧
  ∃ x, xs !! (S e - w) = Some x ∧
       ∀ i y, S e - w < i ≤ e → xs !! i = Some y → same x y = true.
Proof.
  intros Hw. unfold flagged.
  rewrite !andb_true_iff, Nat.leb_le, Nat.ltb_lt, constant_spec. split.
  - intros [[Hle He] Hc]. split_and!; [done | done |].
    destruct (lookup_lt_is_Some_2 xs (S e - w)) as [x Hx]; [lia|].
    exists x. split; [done|]. intros i y Hi Hy.
    apply (Hc x) with (i := i - (S e - w)); [| lia |].
    + rewrite window_lookup, decide_True by lia.
      by replace (S e - w + 0) with (S e - w) by lia.
    + rewrite window_lookup, decide_True by lia.
      by replace (S e - w + (i - (S e - w))) with i by lia.
  - intros (Hle & He & x & Hx & Hsame). split_and!; [done | done |].
    intros x' Hx' i y Hi Hy.
    rewrite window_lookup in Hx', Hy.
    rewrite decide_True in Hx' by lia.
    replace (S e - w + 0) with (S e - w) in Hx' by lia.
    assert (x' = x) as -> by congruence.
    destruct (decide (i < w)) as [Hiw|]; [|done].
    apply (Hsame (S e - w + i) y); [lia | done].
Qed.

Lemma marked_spec (xs : list A) w p :
  0 < w →
  unresponsive_flag same xs w !! p = Some true ↔
  ∃ s, s ≤ p < s + w ∧ s + w ≤ length xs ∧
       ∃ x, xs !! s = Some x ∧
            ∀ i y, s < i < s + w → xs !! i = Some y → same x y = true.
Proof.
  intros Hw. split.
  - intros Hp.
    assert (p < length xs) as Hlt.
    { rewrite <- (unresponsive_flag_length xs w). by eapply lookup_lt_Some. }
    rewrite unresponsive_flag_lookup in Hp by done.
    injection Hp as Hp. apply existsb_exists in Hp as (e & He & Hf).
    apply list_elem_of_In, elem_of_seq in He.
    apply flagged_spec in Hf as (Hle & Hel & x & Hx & Hsame); [|done].
    exists (S e - w). split_and!; [lia | lia | lia |].
    exists x. split; [done|]. intros i y Hi. apply Hsame. lia.
  - intros (s & Hs & Hlen & x & Hx & Hsame).
    rewrite unresponsive_flag_lookup by lia. f_equal.
    apply existsb_exists. exists (s + w - 1). split.
    + apply list_elem_of_In, elem_of_seq. lia.
    + apply flagged_spec; [done|]. split_and!; [lia | lia |].
      replace (S (s + w - 1) - w) with s by lia.
      exists x. split; [done|]. intros i y Hi. apply Hsame. lia.
Qed.

Lemma unmarked (xs : list A) w p :
  p < length xs →
  unresponsive_flag same xs w !! p ≠ Some true →
  unresponsive_flag same xs w !! p = Some false.
Proof.
  intros Hp. rewrite unresponsive_flag_lookup by done.
  by destruct (existsb _ _).
Qed.

Lemma short_stream_unmarked (xs : list A) w :
  length xs < w → unresponsive_flag same xs w = replicate (length xs) false.
Proof.
  intros Hlen. apply list_eq. intros p.
  destruct (decide (p < length xs)) as [Hp|Hp].
  - rewrite lookup_replicate_2 by done. apply unmarked; [done|].
    intros (s & ? & ? & _)%marked_spec; lia.
  - rewrite !(proj2 (lookup_ge_None _ _)); [done | |].
    + rewrite length_replicate. lia.
    + rewrite unresponsive_flag_length. lia.
Qed.

Lemma run_then_change a b w :
  2 ≤ w → same a a = true → same a b = false →
  unresponsive_flag same (replicate w a ++ [b]) w = replicate w true ++ [false].
Proof.
  intros Hw Haa Hab. apply list_eq. intros p.
  assert (length (replicate w a ++ [b]) = S w) as Hlen
    by (rewrite length_app, length_replicate; simpl; lia).
  destruct (decide (p < w)) as [Hp|Hp].
  - rewrite (lookup_app_l (replicate w true)) by (rewrite length_replicate; lia).
    rewrite lookup_replicate_2 by done.
    apply marked_spec; [lia|]. exists 0. split_and!; [lia | lia | lia |].
    exists a. split.
    + rewrite lookup_app_l by (rewrite length_replicate; lia).
      apply lookup_replicate_2. lia.
    + intros i y Hi. rewrite lookup_app_l by (rewrite length_replicate; lia).
      intros [-> _]%lookup_replicate. done.
  - destruct (decide (p = w)) as [->|Hne].
    + rewrite (lookup_app_r (replicate w true)) by (rewrite length_replicate; lia).
      rewrite length_replicate, Nat.sub_diag. simpl.
      apply unmarked; [lia|].
      intros (s & Hs & Hsl & x & Hx & Hsame)%marked_spec; [|lia].
      assert (s = 1) as -> by lia.
      rewrite lookup_app_l in Hx by (rewrite length_replicate; lia).
      apply lookup_replicate in Hx as [-> _].
      assert (same a b = true) as Habt; [|congruence].
      apply (Hsame w); [lia|].
      rewrite lookup_app_r by (rewrite length_replicate; lia).
      by rewrite length_replicate, Nat.sub_diag.
    + rewrite !(proj2 (lookup_ge_None _ _)); [done | |].
      * rewrite length_app, length_replicate. simpl. lia.
      * rewrite unresponsive_flag_length. lia.
Qed.

Lemma short_run_unmarked a b w :
  2 ≤ w → same a b = false →
  unresponsive_flag same (replicate (w - 1) a ++ [b]) w = replicate w false.
Proof.
  intros Hw Hab. apply list_eq. intros p.
  assert (length (replicate (w - 1) a ++ [b]) = w) as Hlen
    by (rewrite length_app, length_replicate; simpl; lia).
  destruct (decide (p < w)) as [Hp|Hp].
  - rewrite lookup_replicate_2 by done. apply unmarked; [lia|].
    intros (s & Hs & Hsl & x & Hx & Hsame)%marked_spec; [|lia].
    assert (s = 0) as -> by lia.
    rewrite lookup_app_l in Hx by (rewrite length_replicate; lia).
    apply lookup_replicate in Hx as [-> _].
    assert (same a b = true) as Habt; [|congruence].
    apply (Hsame (w - 1)); [lia|].
    rewrite lookup_app_r by (rewrite length_replicate; lia).
    by rewrite length_replicate, Nat.sub_diag.
  - rewrite !(proj2 (lookup_ge_None _ _)); [done | |].
    + rewrite length_replicate. lia.
    + rewrite unresponsive_flag_length. lia.
Qed.
End DetectorFacts.

Section IsolatedRun.
Context {A : Type} (same : A → A → bool).

(** A run of [w - 1] samples, fenced by differing values on both sides,
    holds no marked position wherever it lies in the stream. *)
Lemma fenced_run_unmarked (pre post : list A) (a : A) (w p : nat) :
  (∀ x y z, same x y = true → same x z = true → same y z = true) →
  (∀ c, last pre = Some c → same c a = false) →
  (∀ d, head post = Some d → same a d = false) →
  length pre ≤ p < length pre + (w - 1) →
  unresponsive_flag same (pre ++ replicate (w - 1) a ++ post) w !! p
  = Some false.
Proof.
  intros Heucl Hpre Hpost Hp.
  set (xs := pre ++ replicate (w - 1) a ++ post).
  assert (∀ i, length pre ≤ i < length pre + (w - 1) → xs !! i = Some a) as Hrun.
  { intros i Hi. unfold xs. rewrite lookup_app_r by lia.
    rewrite lookup_app_l by (rewrite length_replicate; lia).
    apply lookup_replicate_2. lia. }
  assert (length xs = length pre + (w - 1) + length post) as Hlen.
  { unfold xs. rewrite !length_app, length_replicate. lia. }
  apply unmarked; [lia|].
  intros (s & Hs & Hsl & x & Hx & Hsame)%marked_spec; [|lia].
  destruct (decide (length pre ≤ s)) as [Hin|Hout].
  - rewrite Hrun in Hx by lia. injection Hx as <-.
    destruct post as [|d post']; [simpl in Hlen; lia|].
    assert (same a d = true) as Hd; [|by rewrite Hpost in Hd].
    apply (Hsame (length pre + (w - 1))); [lia|].
    unfold xs. rewrite lookup_app_r by lia.
    rewrite lookup_app_r by (rewrite length_replicate; lia).
    rewrite length_replicate.
    by replace (length pre + (w - 1) - length pre - (w - 1)) with 0 by lia.
  - destruct (lookup_lt_is_Some_2 pre (pred (length pre))) as [c Hc]; [lia|].
    assert (xs !! pred (length pre) = Some c) as Hxc
      by (unfold xs; rewrite lookup_app_l by lia; done).
    assert (same c a = true) as Hca; [|by rewrite Hpre in Hca; [|rewrite last_lookup]].
    assert (same x a = true) as Hxa.
    { apply (Hsame (length pre)); [lia|]. apply Hrun. lia. }
    destruct (decide (s = pred (length pre))) as [->|Hne].
    + by replace c with x by congruence.
    + apply (Heucl x); [|done]. apply (Hsame (pred (length pre))); [lia | done].
Qed.
End IsolatedRun.

(** C3. The detector with window length [w] flags a position exactly when
    the [w] consecutive samples ending there are identical, and marks every
    position of such a window: a position is marked exactly when it lies in
    a window of [w] identical consecutive samples.  For a window of two
    samples or more, a run of [w] identical values followed by a differing
    one marks the [w] positions of the run and not the tail, and a run of
    [w - 1] followed by a differing value is not marked; neither is a run of
    [w - 1] fenced by differing values inside a longer stream.  No window
    ends within the first [w - 1] samples, and a stream shorter than [w] has
    no mark. *)
Theorem unresponsive_flag_full_windows {A : Type} (same : A → A → bool)
    (xs : list A) (w : nat) :
  1 ≤ w →
  length (unresponsive_flag same xs w) = length xs
  ∧ (∀ e, flagged same xs w e = true ↔
          w ≤ S e ∧ e < length xs ∧
          ∃ x, xs !! (S e - w) = Some x ∧
               ∀ i y, S e - w < i ≤ e → xs !! i = Some y → same x y = true)
  ∧ (∀ p, unresponsive_flag same xs w !! p = Some true ↔
          ∃ e, p ≤ e < p + w ∧ flagged same xs w e = true)
  ∧ (∀ p, unresponsive_flag same xs w !! p = Some true ↔
          ∃ s, s ≤ p < s + w ∧ s + w ≤ length xs ∧
               ∃ x, xs !! s = Some x ∧
                    ∀ i y, s < i < s + w → xs !! i = Some y → same x y = true)
  ∧ (∀ a b, 2 ≤ w → same a a = true → same a b = false →
            unresponsive_flag same (replicate w a ++ [b]) w
            = replicate w true ++ [false])
  ∧ (∀ a b, 2 ≤ w → same a b = false →
            unresponsive_flag same (replicate (w - 1) a ++ [b]) w
            = replicate w false)
  ∧ (∀ pre post a p,
       (∀ x y z, same x y = true → same x z = true → same y z = true) →
       (∀ c, last pre = Some c → same c a = false) →
       (∀ d, head post = Some d → same a d = false) →
       length pre ≤ p < length pre + (w - 1) →
       unresponsive_flag same (pre ++ replicate (w - 1) a ++ post) w !! p
       = Some false)
  ∧ (∀ e, e < w - 1 → flagged same xs w e = false)
  ∧ (length xs < w → unresponsive_flag same xs w = replicate (length xs) false).
Proof.
  intros Hw. split_and!.
  - apply unresponsive_flag_length.
  - intros e. apply flagged_spec. lia.
  - intros p. split.
    + intros Hp.
      assert (p < length xs) as Hlt.
      { rewrite <- (unresponsive_flag_length same xs w). by eapply lookup_lt_Some. }
      rewrite unresponsive_flag_lookup in Hp by done.
      injection Hp as Hp. apply existsb_exists in Hp as (e & He & Hf).
      apply list_elem_of_In, elem_of_seq in He. by exists e.
    + intros (e & He & Hf).
      assert (e < length xs) as Hlt.
      { apply flagged_spec in Hf; [|lia]. tauto. }
      rewrite unresponsive_flag_lookup by lia. f_equal.
      apply existsb_exists. exists e. split; [|done].
      by apply list_elem_of_In, elem_of_seq.
  - intros p. apply marked_spec. lia.
  - intros a b. by apply run_then_change.
  - intros a b. by apply short_run_unmarked.
  - intros pre post a p. apply fenced_run_unmarked.
  - intros e He. unfold flagged.
    replace (w <=? S e) with false; [done|].
    symmetry. apply Nat.leb_gt. lia.
  - apply short_stream_unmarked.
Qed.

Lemma unresponsive_flag_full_windows_witness :
  unresponsive_flag cell_same (replicate 3 (Some 7%Q) ++ [Some 8%Q]) 3
  = replicate 3 true ++ [false].
Proof.
  destruct (unresponsive_flag_full_windows cell_same [] 3 ltac:(lia))
    as (_ & _ & _ & _ & Hrun & _).
  apply Hrun; [lia | reflexivity | reflexivity].
Defined.

(** ** The loop over the entities *)

Section AssignNan.
Variable ix : scada_row → bool.
Variable null : scada_row → scada_row.
Hypothesis null_ix : ∀ r, ix (null r) = ix r.

Lemma assign_nan_length flags df :
  length (assign_nan ix flags null df) = length df.
Proof.
  revert flags. induction df as [|r df IH]; intros flags; simpl; [done|].
  destruct (ix r); [destruct flags|]; simpl; by rewrite IH.
Qed.

Lemma assign_nan_filter flags df :
  List.filter ix (assign_nan ix flags null df)
  = null_where flags null (List.filter ix df).
Proof.
  revert flags. induction df as [|r df IH]; intros flags; simpl.
  - by destruct flags.
  - destruct (ix r) eqn:Hr.
    + destruct flags as [|[] flags]; simpl.
      * rewrite Hr, IH. by destruct (List.filter ix df).
      * by rewrite null_ix, Hr, IH.
      * by rewrite Hr, IH.
    + simpl. by rewrite Hr, IH.
Qed.

Lemma assign_nan_other (other : scada_row → bool) flags df :
  (∀ r, other r = true → ix r = false) →
  List.filter other (assign_nan ix flags null df) = List.filter other df.
Proof.
  intros Hother.
  assert (∀ r, ix r = true → other r = false) as Hno.
  { intros r Hr. destruct (other r) eqn:Ho; [|done].
    apply Hother in Ho. congruence. }
  revert flags. induction df as [|r df IH]; intros flags; simpl; [done|].
  destruct (ix r) eqn:Hr.
  - destruct flags as [|[] flags]; simpl.
    + by rewrite IH.
    + rewrite (Hno (null r)), (Hno r), IH; [done | done |].
      by rewrite null_ix.
    + by rewrite IH.
  - simpl. by rewrite IH.
Qed.

Lemma assign_nan_keys flags df :
  (∀ r, key (null r) = key r) →
  List.map key (assign_nan ix flags null df) = List.map key df.
Proof.
  intros Hkey.
  revert flags. induction df as [|r df IH]; intros flags; simpl; [done|].
  destruct (ix r); [destruct flags as [|[] flags]|]; simpl;
    by rewrite ?Hkey, IH.
Qed.
End AssignNan.

Lemma ix_turbine_true t r : ix_turbine t r = true ↔ Wind_turbine_name r = t.
Proof. unfold ix_turbine. apply String.eqb_eq. Qed.

Lemma flag_turbine_same df t :
  List.filter (ix_turbine t) (flag_turbine df t)
  = flag_rows (List.filter (ix_turbine t) df).
Proof.
  unfold flag_turbine, flag_rows.
  by rewrite !assign_nan_filter.
Qed.

Lemma flag_turbine_other df t t' :
  t ≠ t' →
  List.filter (ix_turbine t') (flag_turbine df t) = List.filter (ix_turbine t') df.
Proof.
  intros Hne. unfold flag_turbine.
  rewrite !assign_nan_other; [done | done | | done |].
  - intros r E'%ix_turbine_true. apply not_true_is_false.
    intros E%ix_turbine_true. congruence.
  - intros r E'%ix_turbine_true. apply not_true_is_false.
    intros E%ix_turbine_true. congruence.
Qed.

Lemma flag_turbine_keys df t :
  List.map key (flag_turbine df t) = List.map key df.
Proof. unfold flag_turbine. by rewrite !assign_nan_keys. Qed.

Lemma fold_flag_turbine_keys ids df :
  List.map key (fold_left flag_turbine ids df) = List.map key df.
Proof.
  revert df. induction ids as [|a ids IH]; intros df; simpl; [done|].
  by rewrite IH, flag_turbine_keys.
Qed.

Lemma fold_flag_turbine ids df t :
  NoDup ids →
  List.filter (ix_turbine t) (fold_left flag_turbine ids df)
  = if decide (t ∈ ids) then flag_rows (List.filter (ix_turbine t) df)
    else List.filter (ix_turbine t) df.
Proof.
  intros Hnd. revert df.
  induction Hnd as [|a ids Ha Hnd IH]; intros df; cbn [fold_left].
  - destruct (decide (t ∈ [])) as [Hin|]; [by apply elem_of_nil in Hin | done].
  - rewrite IH. destruct (decide (t = a)) as [->|Hne].
    + rewrite (decide_False (P := a ∈ ids)) by done.
      rewrite (decide_True (P := a ∈ a :: ids)) by left.
      apply flag_turbine_same.
    + rewrite (flag_turbine_other df a t) by done.
      destruct (decide (t ∈ ids)) as [Hin|Hout].
      * rewrite decide_True; [done | by right].
      * rewrite decide_False; [done|].
        by intros [?|?]%elem_of_cons.
Qed.

Lemma unique_from_spec seen l :
  NoDup (unique_from seen l)
  ∧ ∀ x, x ∈ unique_from seen l ↔ x ∈ l ∧ x ∉ seen.
Proof.
  revert seen. induction l as [|a l IH]; intros seen; simpl.
  - split; [constructor|]. intros x. split; [by intros ?%elem_of_nil|].
    by intros [?%elem_of_nil _].
  - destruct (decide (a ∈ seen)) as [Hin|Hout].
    + destruct (IH seen) as [Hnd Hel]. split; [done|].
      intros x. rewrite Hel, elem_of_cons. split; [tauto|].
      intros [[->|?] ?]; tauto.
    + destruct (IH (a :: seen)) as [Hnd Hel]. split.
      * constructor; [|done]. rewrite Hel, elem_of_cons. tauto.
      * intros x. rewrite !elem_of_cons, Hel, elem_of_cons.
        destruct (decide (x = a)) as [->|]; tauto.
Qed.

Lemma filter_ix_absent df t :
  t ∉ List.map Wind_turbine_name df → List.filter (ix_turbine t) df = [].
Proof.
  induction df as [|r df IH]; simpl; [done|].
  rewrite not_elem_of_cons. intros [Hne Hout].
  replace (ix_turbine t r) with false; [by apply IH|].
  symmetry. apply not_true_is_false. by intros E%ix_turbine_true.
Qed.

Lemma flag_unresponsive_rows df t :
  List.filter (ix_turbine t) (flag_unresponsive df)
  = flag_rows (List.filter (ix_turbine t) df).
Proof.
  unfold flag_unresponsive, unique.
  destruct (unique_from_spec [] (List.map Wind_turbine_name df)) as [Hnd Hel].
  rewrite fold_flag_turbine by done.
  destruct (decide (t ∈ _)) as [_|Hout]; [done|].
  rewrite filter_ix_absent; [done|].
  intros Hin. apply Hout, Hel. split; [done | apply not_elem_of_nil].
Qed.

Lemma null_where_lookup flags null rows k r :
  rows !! k = Some r →
  null_where flags null rows !! k
  = Some (match flags !! k with Some true => null r | _ => r end).
Proof.
  revert flags k. induction rows as [|x rows IH]; intros flags k; [done|].
  destruct flags as [|f flags]; simpl.
  - intros ->. done.
  - destruct k as [|k]; simpl.
    + intros [= ->]. by destruct f.
    + apply IH.
Qed.

Lemma null_where_length flags null rows :
  length (null_where flags null rows) = length rows.
Proof.
  revert flags. induction rows as [|x rows IH]; intros [|f flags]; simpl;
    by rewrite ?IH.
Qed.

(** C2, as the code has it.  The loop rejects no row: the frame keeps its
    keys in order.  For every entity, a position marked by the short window
    (3) on the vane position gets all seven columns of [sensor_cols] blank:
    pitch, power, wind speed, vane position, temperature, nacelle angle and
    wind direction.  The long window (20) is then run on the temperature
    column as that first assignment has left it ([long] reads the rows after
    [null_where short null_sensor_cols], so the temperatures blanked by the
    short window are NaN already when it runs, line 56 after line 55): a
    position not marked by the short window but marked by this second pass
    gets only the temperature blank, and a position marked by neither pass
    is left as it is. *)
Theorem flag_unresponsive_nulls_cells (df : list scada_row) (t : string) :
  let rows := List.filter (ix_turbine t) df in
  let short := unresponsive_flag cell_same (List.map Va_avg rows) 3 in
  let long :=
    unresponsive_flag cell_same
      (List.map Ot_avg (null_where short null_sensor_cols rows)) 20 in
  List.map key (flag_unresponsive df) = List.map key df
  ∧ ∀ k r, rows !! k = Some r →
      ∃ (r' : scada_row) (s l : bool),
        List.filter (ix_turbine t) (flag_unresponsive df) !! k = Some r'
        ∧ short !! k = Some s ∧ long !! k = Some l
        ∧ r' = if s then null_sensor_cols r
               else if l then null_Ot_avg r else r.
Proof.
  intros rows short long. split.
  - apply fold_flag_turbine_keys.
  - intros k r Hr.
    assert (k < length rows) as Hk by (by eapply lookup_lt_Some).
    destruct (lookup_lt_is_Some_2 short k) as [s Hs].
    { unfold short. by rewrite unresponsive_flag_length, length_map. }
    destruct (lookup_lt_is_Some_2 long k) as [l Hl].
    { unfold long.
      by rewrite unresponsive_flag_length, length_map, null_where_length. }
    rewrite flag_unresponsive_rows. unfold flag_rows.
    fold rows. fold short. fold long.
    pose proof (null_where_lookup short null_sensor_cols rows k r Hr) as H1.
    rewrite Hs in H1.
    pose proof (null_where_lookup long null_Ot_avg _ k _ H1) as H2.
    rewrite Hl in H2.
    eexists. exists s, l. split_and!; [exact H2 | done | done |].
    by destruct s, l.
Qed.

Lemma flag_unresponsive_nulls_cells_witness :
  ∃ (r' : scada_row) (s l : bool),
    List.filter (ix_turbine "R80711") (flag_unresponsive stuck_vane) !! 1 = Some r'
    ∧ unresponsive_flag cell_same
        (List.map Va_avg (List.filter (ix_turbine "R80711") stuck_vane)) 3 !! 1
      = Some s
    ∧ unresponsive_flag cell_same
        (List.map Ot_avg
           (null_where
              (unresponsive_flag cell_same
                 (List.map Va_avg (List.filter (ix_turbine "R80711") stuck_vane)) 3)
              null_sensor_cols (List.filter (ix_turbine "R80711") stuck_vane)))
        20 !! 1
      = Some l
    ∧ r' = if s then null_sensor_cols (sample_row "R80711" 600 7 11)
           else if l then null_Ot_avg (sample_row "R80711" 600 7 11)
           else sample_row "R80711" 600 7 11.
Proof.
  apply (flag_unresponsive_nulls_cells stuck_vane "R80711").
  reflexivity.
Defined.

(** The claim of C2 as the spec words it fails, twice over.  On three
    samples with a stuck vane and three different temperatures, the long
    window marks nothing, and yet the temperature and the nacelle angle are
    blank after the loop: the short window blanks more than pitch, power,
    wind speed, wind direction and vane position.  And the two detectors are
    not independent: on twenty samples at one steady temperature whose vane
    is stuck over the first three only, the long window on the recorded
    temperature marks all twenty positions and the short window marks the
    first three, yet the loop keeps the temperature of the other seventeen:
    the second pass reads the column after the first has blanked three of
    its cells, and then no window of twenty is constant. *)
Lemma short_window_group_counterexample :
  unresponsive_flag cell_same (List.map Va_avg stuck_vane) 3 = [true; true; true]
  ∧ unresponsive_flag cell_same (List.map Ot_avg stuck_vane) 20
    = [false; false; false]
  ∧ List.map Ot_avg stuck_vane = [Some 10%Q; Some 11%Q; Some 12%Q]
  ∧ List.map Ya_avg stuck_vane = [Some 5%Q; Some 5%Q; Some 5%Q]
  ∧ List.map Ot_avg (flag_unresponsive stuck_vane) = [NaN; NaN; NaN]
  ∧ List.map Ya_avg (flag_unresponsive stuck_vane) = [NaN; NaN; NaN]
  ∧ unresponsive_flag cell_same (List.map Va_avg steady_temperature) 3
    = [true; true; true] ++ replicate 17 false
  ∧ unresponsive_flag cell_same (List.map Ot_avg steady_temperature) 20
    = replicate 20 true
  ∧ List.map Ot_avg steady_temperature = replicate 20 (Some 10%Q)
  ∧ List.map Ot_avg (flag_unresponsive steady_temperature)
    = [NaN; NaN; NaN] ++ replicate 17 (Some 10%Q).
Proof. split_and!; vm_compute; reflexivity. Qed.

(** [cell_same] is what the fenced-run property asks of an identity
    test. *)
Lemma cell_same_euclidean x y z :
  cell_same x y = true → cell_same x z = true → cell_same y z = true.
Proof.
  destruct x as [x|], y as [y|], z as [z|]; simpl; try done.
  rewrite !Qeq_bool_iff. intros Hxy Hxz. by rewrite <- Hxy, <- Hxz.
Qed.

(** The cleaning of the mixed stream: the duplicate and the row reading 50
    degrees are gone, the five samples of the stuck run have their sensor
    cells blank, the other rows and the other turbine are as recorded. *)
Example clean_scada_mixed_stream :
  List.map (fun c => key (scada c)) (_clean_scada mixed_stream)
  = [(Some 0, "R80711"); (Some 0, "R80721"); (Some 600, "R80711");
     (Some 1800, "R80711"); (Some 2400, "R80711"); (Some 600, "R80721");
     (Some 3000, "R80711"); (Some 3600, "R80711"); (Some 4200, "R80711");
     (Some 4800, "R80711")]%Z
  ∧ List.map (fun c => Va_avg (scada c)) (_clean_scada mixed_stream)
    = [Some 1; Some 4; Some 2; NaN; NaN; Some 5; NaN; NaN; NaN; Some 8]%Q
  ∧ List.map (fun c => Ot_avg (scada c)) (_clean_scada mixed_stream)
    = [Some 10; Some 10; Some 11; NaN; NaN; Some 10; NaN; NaN; NaN; Some 17]%Q
  ∧ List.map (fun c => Ya_avg (scada c)) (_clean_scada mixed_stream)
    = [Some 5; Some 5; Some 5; NaN; NaN; Some 5; NaN; NaN; NaN; Some 5]%Q.
Proof. split_and!; vm_compute; reflexivity. Qed.

(** ** Reanalysis streams *)

Local Open Scope Z_scope.

Lemma date_range_lookup start stop freq (i : nat) ts :
  date_range start stop freq !! i = Some ts → ts = start + Z.of_nat i * freq.
Proof.
  unfold date_range. rewrite map_fmap, list_lookup_fmap.
  destruct (seq _ _ !! i) as [j|] eqn:Hj; [|done].
  apply lookup_seq in Hj as [-> _]. by intros [= <-].
Qed.

Lemma asfreq_lookup df freq rows (i : nat) ir :
  asfreq df freq = inr rows → rows !! i = Some ir →
  ∃ i0 ix, List.map raw_datetime df = i0 :: ix
           ∧ ir.1 = index_min i0 ix + Z.of_nat i * freq
           ∧ ir.2 = row_at df ir.1.
Proof.
  unfold asfreq. destruct (List.map raw_datetime df) as [|i0 ix] eqn:Hix.
  - intros [= <-]. done.
  - destruct (decide (NoDup (i0 :: ix))); [|done].
    set (range := date_range _ _ _).
    assert (∀ ts, range !! i = Some ts → ts = index_min i0 ix + Z.of_nat i * freq)
      as Hrange by (intros ts; apply date_range_lookup).
    clearbody range. intros [= <-]. rewrite map_fmap, list_lookup_fmap.
    destruct (range !! i) as [ts|] eqn:Hts; [|done].
    intros [= <-]. exists i0, ix. split_and!; [done | | done].
    by apply Hrange.
Qed.

Lemma row_at_absent df ts :
  ts ∉ List.map raw_datetime df → row_at df ts = None.
Proof.
  intros Hout. unfold row_at.
  destruct (List.find _ df) as [r|] eqn:Hf; [|done].
  apply find_some in Hf as [Hin Heq]. apply Z.eqb_eq in Heq.
  exfalso. apply Hout, list_elem_of_In, in_map_iff. by exists r.
Qed.

(** X5. What the ERA5 path does: when [asfreq] returns, the stream is on a
    strictly regular hourly index, and a period without a recorded row is
    an explicit row of NaN features. *)
Lemma load_era5_regular cwd (df : list reanalysis_raw) rows :
  load_era5 cwd df = inr rows →
  (∀ (i : nat) a b, rows !! i = Some a → rows !! S i = Some b →
                    datetime b = datetime a + hour)
  ∧ (∀ r, r ∈ rows → datetime r ∉ List.map raw_datetime df →
          u r = NaN ∧ v r = NaN ∧ winddirection_deg r = cwd NaN NaN).
Proof.
  unfold load_era5. destruct (asfreq df hour) as [e|irs] eqn:Has; [done|].
  cbn. intros [= <-]. split.
  - intros i a b. rewrite !map_fmap, !list_lookup_fmap.
    destruct (irs !! i) as [ia|] eqn:Hia; [|done].
    destruct (irs !! S i) as [ib|] eqn:Hib; [|done].
    intros [= <-] [= <-]. simpl.
    destruct (asfreq_lookup _ _ _ _ _ Has Hia) as (i0 & ix & E & -> & _).
    destruct (asfreq_lookup _ _ _ _ _ Has Hib) as (i0' & ix' & E' & -> & _).
    rewrite E in E'. injection E' as <- <-. lia.
  - intros r Hr Hout. rewrite map_fmap in Hr.
    apply list_elem_of_fmap in Hr as (ir & -> & Hir).
    apply list_elem_of_lookup in Hir as [i Hi].
    destruct (asfreq_lookup _ _ _ _ _ Has Hi) as (_ & _ & _ & _ & E).
    simpl in *. rewrite (row_at_absent df ir.1 Hout) in E.
    unfold era5_row. rewrite E. done.
Qed.

(** C4 on the code.  The MERRA2 path adds the derived direction and nothing
    more: the stream keeps exactly the recorded timestamps, so a gap of
    three hours stays a gap, while the ERA5 path, given the same feed,
    returns the regular hourly index with explicit NaN rows for the missing
    hours. *)
Theorem load_merra2_keeps_gaps (cwd : cell → cell → cell)
    (df : list reanalysis_raw) :
  List.map datetime (load_merra2 cwd df) = List.map raw_datetime df
  ∧ List.map datetime (load_merra2 cwd gap_feed) = [0; 3600; 18000]
  ∧ ∃ rows, load_era5 cwd gap_feed = inr rows
      ∧ List.map datetime rows = [0; 3600; 7200; 10800; 14400; 18000]
      ∧ List.map u rows
        = [Some 1%Q; Some 3%Q; NaN; NaN; NaN; Some 5%Q].
Proof.
  split_and!.
  - unfold load_merra2. rewrite List.map_map. done.
  - reflexivity.
  - eexists. split_and!; reflexivity.
Qed.

(** ** The run and its failures *)

Local Close Scope Z_scope.

Lemma clean_scada_keys df :
  List.map (fun c => key (scada c)) (_clean_scada df)
  = List.map key (range_filter (drop_duplicates df)).
Proof.
  unfold _clean_scada, flag_unresponsive.
  rewrite !List.map_map. simpl.
  rewrite <- (fold_flag_turbine_keys
                (unique (List.map Wind_turbine_name (range_filter (drop_duplicates df))))
                (range_filter (drop_duplicates df))).
  done.
Qed.

Lemma asfreq_error df freq e :
  asfreq df freq = inl e → e = ValueError ∧ ¬ NoDup (List.map raw_datetime df).
Proof.
  unfold asfreq. destruct (List.map raw_datetime df) as [|i0 ix]; [done|].
  destruct (decide (NoDup (i0 :: ix))); [done|]. by intros [= <-].
Qed.

Lemma asfreq_repeated df freq :
  ¬ NoDup (List.map raw_datetime df) → asfreq df freq = inl ValueError.
Proof.
  unfold asfreq. destruct (List.map raw_datetime df) as [|i0 ix].
  - intros []. constructor.
  - intros Hdup. by rewrite decide_False.
Qed.

Section RunFacts.
Variable compute_wind_direction : cell → cell → cell.
Variable parse_scada : string → option (list scada_row).
Variable parse_plant : string → option (list plant_row).
Variable parse_merra2 : string → option (list reanalysis_raw).
Variable parse_era5 : string → option (list reanalysis_raw).
Variable parse_asset : string → option (list asset_row).
Variable PlantData :
  gmap FS.path FS.node → string → FS.path →
  list scada_clean_row → list meter_row → list curtail_row →
  list asset_row → list (string * list reanalysis_row) → error + plant_data.
Variable DATA_DIR : FS.path.

(** The run up to line 100: when the directory is there, or has been
    extracted, and the four files read before that line read as frames,
    what is left of the run is the ERA5 regularisation, the entity table
    and the validator. *)
Lemma load_plant_data_reads fs fs' scada_df meter_curtail_df re_merra2 re_era5 :
  let path := DATA_DIR ++ ["la_haute_borne"%string] in
  FS._extract_data path fs = inr fs' →
  read_csv parse_scada fs' (path ++ ["la-haute-borne-data-2014-2015.csv"%string])
  = inr scada_df →
  read_csv parse_plant fs' (path ++ ["plant_data.csv"%string])
  = inr meter_curtail_df →
  read_csv parse_merra2 fs' (path ++ ["merra2_la_haute_borne.csv"%string])
  = inr re_merra2 →
  read_csv parse_era5 fs' (path ++ ["era5_wind_la_haute_borne.csv"%string])
  = inr re_era5 →
  load_plant_data compute_wind_direction parse_scada parse_plant parse_merra2
    parse_era5 parse_asset PlantData DATA_DIR fs
  = (re_era5 ← raised (load_era5 compute_wind_direction re_era5);
     asset_df ← read_csv parse_asset fs'
                   (path ++ ["la-haute-borne_asset_table.csv"%string]);
     plant ← raised
       (PlantData fs' "MonteCarloAEP" (DATA_DIR ++ ["plant_meta.yml"%string])
          (_clean_scada scada_df)
          (List.map meter_of meter_curtail_df)
          (List.map curtail_of meter_curtail_df)
          (List.map set_type asset_df)
          [("era5"%string, re_era5);
           ("merra2"%string, load_merra2 compute_wind_direction re_merra2)]);
     inr (fs', plant)).
Proof.
  intros path Hx Hs Hp Hm He. unfold load_plant_data. fold path.
  rewrite Hx. cbn. rewrite Hs. cbn. rewrite Hp. cbn. rewrite Hm. cbn.
  rewrite He. done.
Qed.

(** An ERA5 file that repeats a timestamp ends such a run at line 100,
    whatever the entity table and the validator are. *)
Lemma load_plant_data_repeated_era5 fs fs' scada_df meter_curtail_df re_merra2
    re_era5 :
  let path := DATA_DIR ++ ["la_haute_borne"%string] in
  FS._extract_data path fs = inr fs' →
  read_csv parse_scada fs' (path ++ ["la-haute-borne-data-2014-2015.csv"%string])
  = inr scada_df →
  read_csv parse_plant fs' (path ++ ["plant_data.csv"%string])
  = inr meter_curtail_df →
  read_csv parse_merra2 fs' (path ++ ["merra2_la_haute_borne.csv"%string])
  = inr re_merra2 →
  read_csv parse_era5 fs' (path ++ ["era5_wind_la_haute_borne.csv"%string])
  = inr re_era5 →
  ¬ NoDup (List.map raw_datetime re_era5) →
  load_plant_data compute_wind_direction parse_scada parse_plant parse_merra2
    parse_era5 parse_asset PlantData DATA_DIR fs
  = inl (Raised ValueError).
Proof.
  intros path Hx Hs Hp Hm He Hdup.
  rewrite (load_plant_data_reads _ _ _ _ _ _ Hx Hs Hp Hm He).
  unfold load_era5. by rewrite asfreq_repeated.
Qed.
End RunFacts.

Lemma extract_data_present p fs :
  FS.exists_ fs p = true → FS._extract_data p fs = inr fs.
Proof. unfold FS._extract_data. by intros ->. Qed.

(** C8 on the code.  The ERA5 stage raises [ValueError] exactly when the
    feed repeats a timestamp, and nothing catches it: in a dataset directory
    whose files all read as frames and whose ERA5 file repeats a timestamp,
    the run ends at line 100, before the entity table is read and before
    the validator is called, with an exception that is neither of the
    validator's.  With the repeat taken out of that one file the same
    directory reaches the validator, and the run returns what the validator
    returns.  The SCADA file of that directory repeats a key too: line 44
    drops the repeat, and the cleaned frame has every key once. *)
Theorem load_plant_data_era5_repeat_aborts (cwd : cell → cell → cell)
    (PlantData :
       gmap FS.path FS.node → string → FS.path →
       list scada_clean_row → list meter_row → list curtail_row →
       list asset_row → list (string * list reanalysis_row) → error + plant_data) :
  (∀ df, ¬ NoDup (List.map raw_datetime df) ↔ load_era5 cwd df = inl ValueError)
  ∧ ¬ NoDup (List.map raw_datetime repeated_feed)
  ∧ sample_run cwd PlantData (sample_dir "repeated") = inl (Raised ValueError)
  ∧ (∃ re_era5,
       load_era5 cwd gap_feed = inr re_era5
       ∧ sample_run cwd PlantData (sample_dir "gap")
         = (plant ← raised
              (PlantData (sample_dir "gap") "MonteCarloAEP"
                 ["data"; "plant_meta.yml"]%string
                 (_clean_scada mixed_stream)
                 [mk_meter 0 (Some 1%Q)]
                 [mk_curtail 0 (Some 1%Q) (Some 0%Q) (Some 0%Q)]
                 [mk_asset "R80711" "turbine"; mk_asset "R80721" "turbine"]
                 [("era5"%string, re_era5);
                  ("merra2"%string, load_merra2 cwd gap_feed)]);
            inr (sample_dir "gap", plant)))
  ∧ ¬ NoDup (List.map key mixed_stream)
  ∧ NoDup (List.map (fun c => key (scada c)) (_clean_scada mixed_stream)).
Proof.
  split_and!.
  - intros df. split.
    + intros Hdup. unfold load_era5. by rewrite asfreq_repeated.
    + unfold load_era5.
      destruct (asfreq df hour) as [e|rows] eqn:Has; [|done].
      intros _. by apply asfreq_error in Has as [_ ?].
  - apply (bool_decide_unpack _). by vm_compute.
  - unfold sample_run.
    apply (load_plant_data_repeated_era5 _ _ _ _ _ _ _ _ _ (sample_dir "repeated")
             mixed_stream [mk_plant 0 (Some 1%Q) (Some 0%Q) (Some 0%Q)]
             gap_feed repeated_feed).
    + apply extract_data_present. by vm_compute.
    + by vm_compute.
    + by vm_compute.
    + by vm_compute.
    + by vm_compute.
    + apply (bool_decide_unpack _). by vm_compute.
  - eexists. split; [reflexivity|]. unfold sample_run.
    rewrite (load_plant_data_reads _ _ _ _ _ _ _ _ _ (sample_dir "gap")
               mixed_stream [mk_plant 0 (Some 1%Q) (Some 0%Q) (Some 0%Q)]
               gap_feed gap_feed).
    + assert (read_csv
                (frame_named
                   [("two turbines"%string,
                     [mk_asset "R80711" "turbine"; mk_asset "R80721" "turbine"])])
                (sample_dir "gap")
                ((["data"%string] ++ ["la_haute_borne"%string])
                   ++ ["la-haute-borne_asset_table.csv"%string])
              = inr [mk_asset "R80711" "turbine"; mk_asset "R80721" "turbine"])
        as -> by (by vm_compute).
      reflexivity.
    + apply extract_data_present. by vm_compute.
    + by vm_compute.
    + by vm_compute.
    + by vm_compute.
    + by vm_compute.
  - apply (bool_decide_unpack _). by vm_compute.
  - apply (bool_decide_unpack _). by vm_compute.
Qed.

(** ** Extraction of the raw archive *)

Import FS.

Lemma makedirs_mono comps fs base fs' q :
  makedirs fs base comps = inr fs' → is_Some (fs !! q) → is_Some (fs' !! q).
Proof.
  revert fs base. induction comps as [|c rest IH]; intros fs base; simpl.
  - by intros [= <-].
  - destruct (fs !! (base ++ [c])) as [[]|] eqn:Hp; [| done | done |].
    + apply IH.
    + intros Hm Hq. apply (IH _ _ Hm).
      apply lookup_insert_is_Some'. by right.
Qed.

Lemma makedirs_creates comps fs base fs' k :
  makedirs fs base comps = inr fs' → 0 < k ≤ length comps →
  is_Some (fs' !! (base ++ take k comps)).
Proof.
  revert fs base k. induction comps as [|c rest IH]; intros fs base k; simpl.
  - lia.
  - intros Hm Hk. destruct k as [|k]; [lia|]. simpl.
    assert (∀ fs0, makedirs fs0 (base ++ [c]) rest = inr fs' →
                   is_Some (fs0 !! (base ++ [c])) →
                   is_Some (fs' !! (base ++ c :: take k rest))) as Hstep.
    { intros fs0 Hm0 Hp0. destruct k as [|k].
      - rewrite take_0. by eapply makedirs_mono.
      - replace (base ++ c :: take (S k) rest)
          with ((base ++ [c]) ++ take (S k) rest) by (by rewrite <- app_assoc).
        apply (IH _ _ _ Hm0). lia. }
    destruct (fs !! (base ++ [c])) as [[]|] eqn:Hp; [| done | done |].
    + apply (Hstep _ Hm). by rewrite Hp.
    + apply (Hstep _ Hm). by rewrite lookup_insert_eq.
Qed.

Lemma extract_member_mono dest fs m fs' q :
  extract_member dest fs m = inr fs' → is_Some (fs !! q) → is_Some (fs' !! q).
Proof.
  unfold extract_member. destruct m as [rel [data|]]; simpl.
  - destruct (makedirs fs [] (removelast (dest ++ rel))) as [e|fs1] eqn:Hm;
      [done|]. cbn.
    intros Hw Hq. pose proof (makedirs_mono _ _ _ _ q Hm Hq) as Hq1.
    destruct (fs1 !! (dest ++ rel)) as [[]|]; [done | | |];
      injection Hw as <-; apply lookup_insert_is_Some'; by right.
  - apply makedirs_mono.
Qed.

Lemma extract_member_creates dest fs m fs' :
  dest ≠ [] → extract_member dest fs m = inr fs' → is_Some (fs' !! dest).
Proof.
  intros Hdest. unfold extract_member. destruct m as [rel [data|]]; simpl.
  - destruct (makedirs fs [] (removelast (dest ++ rel))) as [e|fs1] eqn:Hm;
      [done|]. cbn.
    intros Hw.
    assert (rel ≠ [] → is_Some (fs1 !! dest)) as Hdir.
    { intros Hrel. rewrite removelast_app in Hm by done.
      pose proof (makedirs_creates _ _ _ _ (length dest) Hm) as Hc.
      rewrite take_app_length in Hc. apply Hc.
      rewrite length_app. destruct dest; [done | simpl; lia]. }
    destruct rel as [|c rel].
    + rewrite app_nil_r in Hw.
      destruct (fs1 !! dest) as [[]|]; [done | | |];
        injection Hw as <-; by rewrite lookup_insert_eq.
    + destruct (fs1 !! (dest ++ c :: rel)) as [[]|]; [done | | |];
        injection Hw as <-; apply lookup_insert_is_Some'; right;
        by apply Hdir.
  - intros Hm.
    pose proof (makedirs_creates _ _ _ _ (length dest) Hm) as Hc.
    rewrite take_app_length in Hc. apply Hc.
    rewrite length_app. destruct dest; [done | simpl; lia].
Qed.

Lemma extractall_mono members dest fs fs' q :
  extractall members dest fs = inr fs' → is_Some (fs !! q) → is_Some (fs' !! q).
Proof.
  revert fs. induction members as [|m rest IH]; intros fs; simpl.
  - by intros [= <-].
  - destruct (extract_member dest fs m) as [e|fs1] eqn:Hm; [done|]. cbn.
    intros Hrest Hq. apply (IH _ Hrest). by eapply extract_member_mono.
Qed.

Lemma extractall_creates members dest fs fs' :
  dest ≠ [] → members ≠ [] →
  extractall members dest fs = inr fs' → is_Some (fs' !! dest).
Proof.
  intros Hdest Hmem. destruct members as [|m rest]; [done|]. simpl.
  destruct (extract_member dest fs m) as [e|fs1] eqn:Hm; [done|]. cbn.
  intros Hrest. apply (extractall_mono _ _ _ _ _ Hrest).
  by eapply extract_member_creates.
Qed.

Lemma with_suffix_nonempty p suffix zip : with_suffix p suffix = inr zip → p ≠ [].
Proof. by destruct p. Qed.

(** C9. When the directory exists [_extract_data] does nothing: it returns
    the file system it was given.  The archive is read, and its members
    written, only when the directory is absent; whenever the file system
    comes back changed the directory was absent.  Extraction is
    idempotent: a second run on the result of a first changes nothing. *)
Theorem extract_data_idempotent (p : path) (fs : gmap path node) :
  (is_Some (fs !! p) → _extract_data p fs = inr fs)
  ∧ (fs !! p = None →
     _extract_data p fs
     = (zip ← with_suffix p ".zip"; zf ← open_zip fs zip; extractall zf p fs))
  ∧ (∀ fs', _extract_data p fs = inr fs' → fs' ≠ fs → fs !! p = None)
  ∧ (∀ fs', _extract_data p fs = inr fs' → _extract_data p fs' = inr fs').
Proof.
  unfold _extract_data, exists_. split_and!.
  - intros Hp. by rewrite bool_decide_eq_true_2.
  - intros Hp. rewrite bool_decide_eq_false_2; [done|].
    rewrite Hp. by intros [? [=]].
  - intros fs' Hrun Hne. case_bool_decide as Hp.
    + simpl in Hrun. by injection Hrun as <-.
    + by apply eq_None_not_Some.
  - intros fs' Hrun. case_bool_decide as Hp; simpl in Hrun.
    + injection Hrun as <-. by rewrite bool_decide_eq_true_2.
    + destruct (with_suffix p ".zip") as [e|zip] eqn:Hzip; [done|].
      cbn in Hrun.
      destruct (open_zip fs zip) as [e|members] eqn:Hopen; [done|].
      cbn in Hrun.
      destruct members as [|m rest].
      * injection Hrun as <-. rewrite bool_decide_eq_false_2 by done.
        cbn. rewrite Hopen. done.
      * rewrite bool_decide_eq_true_2; [done|].
        eapply extractall_creates; [| |exact Hrun]; [|done].
        by eapply with_suffix_nonempty.
Qed.

Lemma extract_data_idempotent_witness :
  _extract_data la_haute_borne extracted = inr extracted.
Proof.
  destruct (extract_data_idempotent la_haute_borne extracted) as (Hskip & _).
  apply Hskip. apply (bool_decide_unpack _). vm_compute. exact I.
Defined.

(** The first extraction of the sample archive gives the extracted tree,
    and a second run leaves it alone. *)
Example extract_data_first_run :
  _extract_data la_haute_borne archive_only = inr extracted
  ∧ _extract_data la_haute_borne extracted = inr extracted.
Proof. split; vm_compute; reflexivity. Qed.

(** ** The cleaned SCADA frame as a whole *)

Lemma range_filter_sublist df : sublist (range_filter df) df.
Proof.
  unfold range_filter. induction df as [|r df IH]; simpl; [constructor|].
  destruct (in_temp_range r); by constructor.
Qed.

Lemma range_filter_elem df r :
  r ∈ range_filter df ↔ r ∈ df ∧ in_temp_range r = true.
Proof. unfold range_filter. by rewrite !list_elem_of_In, filter_In. Qed.

Lemma key_inj_on (l : list scada_row) x y :
  NoDup (key <$> l) → x ∈ l → y ∈ l → key x = key y → x = y.
Proof.
  induction l as [|a l IH]; [by intros _ ?%elem_of_nil|].
  rewrite fmap_cons, NoDup_cons. intros [Ha Hnd].
  intros [->|Hx]%elem_of_cons [->|Hy]%elem_of_cons Hk; [done | | |by apply IH].
  - destruct Ha. rewrite Hk. by apply list_elem_of_fmap_2.
  - destruct Ha. rewrite <- Hk. by apply list_elem_of_fmap_2.
Qed.

Lemma find_key_first (l : list scada_row) k r :
  List.find (fun r => bool_decide (key r = k)) l = Some r → r ∈ l ∧ key r = k.
Proof.
  intros [Hin Hk]%find_some. split; [by apply list_elem_of_In|].
  by apply bool_decide_eq_true in Hk.
Qed.

Lemma find_key_unique (l : list scada_row) r :
  NoDup (key <$> l) → r ∈ l →
  List.find (fun x => bool_decide (key x = key r)) l = Some r.
Proof.
  intros Hnd Hr.
  destruct (List.find _ l) as [x|] eqn:Hf.
  - apply find_key_first in Hf as [Hx Hk]. f_equal. by eapply key_inj_on.
  - apply list_elem_of_In in Hr.
    pose proof (find_none _ _ Hf r Hr) as Hb.
    by apply bool_decide_eq_false in Hb.
Qed.

(** X1. The cleaned frame holds every key once, in the order of the input;
    a key of the input is in the cleaned frame exactly when its first record
    in the input reads a temperature in range: a later duplicate never
    stands in for a first record that the range filter removes. *)
Theorem clean_scada_keys_first_record (df : list scada_row) :
  NoDup (List.map (fun c => key (scada c)) (_clean_scada df))
  ∧ sublist (List.map (fun c => key (scada c)) (_clean_scada df))
      (List.map key df)
  ∧ ∀ k, k ∈ List.map (fun c => key (scada c)) (_clean_scada df) ↔
         ∃ r, List.find (fun r => bool_decide (key r = k)) df = Some r
              ∧ in_temp_range r = true.
Proof.
  rewrite clean_scada_keys, !map_fmap.
  assert (sublist (key <$> range_filter (drop_duplicates df))
            (key <$> drop_duplicates df)) as Hsub
    by apply fmap_sublist, range_filter_sublist.
  pose proof (drop_duplicates_from_NoDup ∅ df) as Hnd.
  fold (drop_duplicates df) in Hnd.
  split_and!.
  - by eapply sublist_NoDup.
  - etrans; [exact Hsub|].
    apply fmap_sublist, drop_duplicates_from_sublist.
  - intros k. rewrite list_elem_of_fmap. split.
    + intros (r & -> & [Hr Hrange]%range_filter_elem).
      exists r. split; [|done].
      rewrite <- (drop_duplicates_from_find ∅ df (key r)) by apply not_elem_of_empty.
      by apply find_key_unique.
    + intros (r & Hf & Hrange).
      rewrite <- (drop_duplicates_from_find ∅ df k) in Hf by apply not_elem_of_empty.
      apply find_key_first in Hf as [Hr <-].
      exists r. split; [done|]. by apply range_filter_elem.
Qed.

Lemma clean_scada_keys_first_record_witness :
  (Some 600%Z, "R80711"%string)
  ∈ List.map (fun c => key (scada c))
      (_clean_scada [sample_row "R80711" 0 1 50; sample_row "R80711" 600 2 11;
                     sample_row "R80711" 600 3 50]).
Proof.
  apply (clean_scada_keys_first_record
           [sample_row "R80711" 0 1 50; sample_row "R80711" 600 2 11;
            sample_row "R80711" 600 3 50]).
  exists (sample_row "R80711" 600 2 11). split; reflexivity.
Defined.

Section LoopInvariant.
Variable P : scada_row → Prop.
Hypothesis P_sensor_cols : ∀ r, P r → P (null_sensor_cols r).
Hypothesis P_Ot_avg : ∀ r, P r → P (null_Ot_avg r).

Lemma assign_nan_Forall ix flags null df :
  (∀ r, P r → P (null r)) → Forall P df → Forall P (assign_nan ix flags null df).
Proof.
  intros Hnull Hdf. revert flags.
  induction Hdf as [|r df Hr Hdf IH]; intros flags; simpl; [constructor|].
  destruct (ix r); [destruct flags as [|[] flags]|]; constructor; auto.
Qed.

Lemma flag_unresponsive_Forall df : Forall P df → Forall P (flag_unresponsive df).
Proof.
  unfold flag_unresponsive.
  generalize (unique (List.map Wind_turbine_name df)). intros ids. revert df.
  induction ids as [|t ids IH]; intros df Hdf; simpl; [done|].
  apply IH. unfold flag_turbine. by repeat apply assign_nan_Forall.
Qed.
End LoopInvariant.

(** X2. Every row of the cleaned frame reads a temperature that is missing
    or within [-15, 45] and a pitch that is missing or within (-180, 180]. *)
Theorem clean_scada_cells_in_range (df : list scada_row) (c : scada_clean_row) :
  c ∈ _clean_scada df →
  (Ot_avg (scada c) = NaN
   ∨ ∃ x, Ot_avg (scada c) = Some x ∧ (-15 <= x)%Q ∧ (x <= 45)%Q)
  ∧ (Ba_avg (scada c) = NaN
     ∨ ∃ y, Ba_avg (scada c) = Some y ∧ (-180 < y)%Q ∧ (y <= 180)%Q).
Proof.
  unfold _clean_scada. rewrite !map_fmap.
  intros (r' & -> & (r & -> & Hr)%list_elem_of_fmap)%list_elem_of_fmap.
  simpl. split.
  - assert (Forall (fun r => Ot_avg r = NaN ∨ in_temp_range r = true)
              (flag_unresponsive (range_filter (drop_duplicates df)))) as Hall.
    { apply flag_unresponsive_Forall; [by left | by left |].
      apply Forall_forall. intros x Hx%range_filter_elem. right. tauto. }
    rewrite Forall_forall in Hall.
    destruct (Hall r Hr) as [?|Hrange]; [by left|].
    right. by apply in_temp_range_spec.
  - destruct (Ba_avg r) as [x|]; [right | by left].
    apply normalize_angle_range.
Qed.

Lemma clean_scada_cells_in_range_witness :
  Ot_avg (scada (add_energy (normalize_pitch (sample_row "R80711" 0 1 10)))) = NaN
  ∨ ∃ x, Ot_avg (scada (add_energy (normalize_pitch (sample_row "R80711" 0 1 10))))
         = Some x ∧ (-15 <= x)%Q ∧ (x <= 45)%Q.
Proof.
  apply (clean_scada_cells_in_range [sample_row "R80711" 0 1 10]).
  vm_compute. left.
Defined.

Lemma filter_filter_comm {A : Type} (p q : A → bool) (l : list A) :
  List.filter p (List.filter q l) = List.filter q (List.filter p l).
Proof.
  induction l as [|x l IH]; simpl; [done|].
  destruct (p x) eqn:Hp, (q x) eqn:Hq; simpl; rewrite ?Hp, ?Hq, IH; done.
Qed.

Lemma filter_all {A : Type} (p : A → bool) (l : list A) :
  Forall (fun x => p x = true) l → List.filter p l = l.
Proof.
  induction 1 as [|x l Hx _ IH]; simpl; [done|]. by rewrite Hx, IH.
Qed.

Lemma drop_duplicates_from_filter t seen seen' df :
  (∀ k, k.2 = t → k ∈ seen ↔ k ∈ seen') →
  List.filter (ix_turbine t) (drop_duplicates_from seen df)
  = drop_duplicates_from seen' (List.filter (ix_turbine t) df).
Proof.
  revert seen seen'. induction df as [|r df IH]; intros seen seen' Hs; simpl; [done|].
  destruct (ix_turbine t r) eqn:Hr.
  - apply ix_turbine_true in Hr. simpl.
    destruct (decide (key r ∈ seen)) as [Hin|Hout].
    + rewrite decide_True by (by apply Hs). by apply IH.
    + rewrite decide_False by (by rewrite <- Hs). simpl.
      rewrite (proj2 (ix_turbine_true t r) Hr). f_equal. apply IH.
      intros k Hk. rewrite !elem_of_union. by rewrite Hs.
  - assert (Wind_turbine_name r ≠ t) as Hne
      by (intros E%ix_turbine_true; congruence).
    destruct (decide (key r ∈ seen)) as [Hin|Hout]; [by apply IH|].
    simpl. rewrite Hr. apply IH.
    intros k Hk. rewrite elem_of_union, elem_of_singleton, <- Hs by done.
    split; [|tauto]. intros [->|?]; [by destruct Hne | done].
Qed.

Lemma flag_unresponsive_single t df :
  Forall (fun r => ix_turbine t r = true) df → flag_unresponsive df = flag_rows df.
Proof.
  intros Hall.
  rewrite <- (filter_all (ix_turbine t) (flag_unresponsive df)).
  - by rewrite flag_unresponsive_rows, filter_all.
  - by apply flag_unresponsive_Forall.
Qed.

Lemma filter_ix_all t df :
  Forall (fun r => ix_turbine t r = true) (List.filter (ix_turbine t) df).
Proof.
  apply Forall_forall. intros r Hr.
  apply list_elem_of_In, filter_In in Hr. tauto.
Qed.

(** X4. The cleaning treats the turbines independently: the cleaned rows of
    one turbine are the cleaning of that turbine's rows alone. *)
Theorem clean_scada_per_turbine (df : list scada_row) (t : string) :
  List.filter (fun c => ix_turbine t (scada c)) (_clean_scada df)
  = _clean_scada (List.filter (ix_turbine t) df).
Proof.
  unfold _clean_scada.
  rewrite (filter_map_swap (fun c => ix_turbine t (scada c)) add_energy).
  rewrite (filter_map_swap (fun r => ix_turbine t (scada (add_energy r)))
             normalize_pitch).
  do 2 f_equal.
  change (fun a => ix_turbine t (scada (add_energy (normalize_pitch a))))
    with (ix_turbine t).
  rewrite flag_unresponsive_rows.
  unfold range_filter at 1. rewrite filter_filter_comm.
  unfold drop_duplicates at 1.
  rewrite (drop_duplicates_from_filter t ∅ ∅) by done.
  fold (drop_duplicates (List.filter (ix_turbine t) df)).
  fold (range_filter (drop_duplicates (List.filter (ix_turbine t) df))).
  symmetry. apply (flag_unresponsive_single t).
  apply Forall_forall. intros r [Hr _]%range_filter_elem.
  unfold drop_duplicates in Hr.
  apply drop_duplicates_from_elem in Hr as [_ Hr].
  pose proof (filter_ix_all t df) as Hall.
  rewrite Forall_forall in Hall. by apply Hall.
Qed.

(** ** Angles that differ by full turns *)

Local Open Scope Q_scope.

Lemma mod360_turns x (k : Z) : mod360 (x + 360 * inject_Z k) == mod360 x.
Proof.
  unfold mod360. floor_bounds (x / 360).
  assert ((x + 360 * inject_Z k) / 360 == x / 360 + inject_Z k) as E by field.
  rewrite (Qfloor_unique ((x + 360 * inject_Z k) / 360) (Qfloor (x / 360) + k)).
  - rewrite inject_Z_plus. lra.
  - rewrite inject_Z_plus. lra.
  - rewrite inject_Z_plus. lra.
Qed.

Lemma normalize_angle_proper x y :
  mod360 x == mod360 y →
  cell_eq (normalize_angle (Some x)) (normalize_angle (Some y)).
Proof.
  intros E. rewrite !normalize_angle_some. simpl.
  destruct (Qle_bool (mod360 x) 180) eqn:Hx, (Qle_bool (mod360 y) 180) eqn:Hy.
  - done.
  - apply Qle_bool_iff in Hx. rewrite E in Hx. apply Qle_bool_iff in Hx.
    congruence.
  - apply Qle_bool_iff in Hy. rewrite <- E in Hy. apply Qle_bool_iff in Hy.
    congruence.
  - by rewrite E.
Qed.

(** X3. The normalizer does not see full turns: two angles that differ by a
    multiple of 360 degrees get the same pitch, and the lower end of the
    canonical interval is open: -180 becomes 180. *)
Theorem normalize_angle_full_turns (x : Q) (k : Z) :
  cell_eq (normalize_angle (Some (x + 360 * inject_Z k))) (normalize_angle (Some x))
  ∧ cell_eq (normalize_angle (Some (-180))) (Some 180)
  ∧ cell_eq (normalize_angle (Some 180)) (Some 180).
Proof.
  split_and!; [|reflexivity|reflexivity].
  apply normalize_angle_proper, mod360_turns.
Qed.

Local Close Scope Q_scope.

(** ** The regular index of the ERA5 stream *)

Local Open Scope Z_scope.

Lemma index_min_spec i0 ix :
  index_min i0 ix ∈ i0 :: ix ∧ ∀ x, x ∈ i0 :: ix → index_min i0 ix ≤ x.
Proof.
  unfold index_min. induction ix as [|a ix [Hin Hle]]; simpl.
  - split; [by left|]. intros x ->%list_elem_of_singleton. lia.
  - split.
    + destruct (Z.min_spec a (fold_right Z.min i0 ix)) as [[_ ->]|[_ ->]].
      * right. by left.
      * apply elem_of_cons in Hin as [->|Hin]; [by left|]. right. by right.
    + intros x [->|[->|Hx]%elem_of_cons]%elem_of_cons.
      * specialize (Hle i0 ltac:(by left)). lia.
      * lia.
      * specialize (Hle x ltac:(by right)). lia.
Qed.

Lemma index_max_spec i0 ix :
  index_max i0 ix ∈ i0 :: ix ∧ ∀ x, x ∈ i0 :: ix → x ≤ index_max i0 ix.
Proof.
  unfold index_max. induction ix as [|a ix [Hin Hle]]; simpl.
  - split; [by left|]. intros x ->%list_elem_of_singleton. lia.
  - split.
    + destruct (Z.max_spec a (fold_right Z.max i0 ix)) as [[_ ->]|[_ ->]].
      * apply elem_of_cons in Hin as [->|Hin]; [by left|]. right. by right.
      * right. by left.
    + intros x [->|[->|Hx]%elem_of_cons]%elem_of_cons.
      * specialize (Hle i0 ltac:(by left)). lia.
      * lia.
      * specialize (Hle x ltac:(by right)). lia.
Qed.

Lemma date_range_length start stop freq :
  length (date_range start stop freq) = S (Z.to_nat ((stop - start) / freq)).
Proof. unfold date_range. by rewrite length_map, length_seq. Qed.

Lemma date_range_lookup_lt start stop freq (i : nat) :
  (i ≤ Z.to_nat ((stop - start) / freq))%nat →
  date_range start stop freq !! i = Some (start + Z.of_nat i * freq).
Proof.
  intros Hi. unfold date_range.
  rewrite map_fmap, list_lookup_fmap, lookup_seq_lt by lia. done.
Qed.

Lemma row_at_found df r :
  NoDup (List.map raw_datetime df) → r ∈ df → row_at df (raw_datetime r) = Some r.
Proof.
  unfold row_at. induction df as [|a df IH]; simpl; [by intros _ ?%elem_of_nil|].
  rewrite NoDup_cons. intros [Ha Hnd] [->|Hr]%elem_of_cons.
  - by rewrite Z.eqb_refl.
  - destruct (Z.eqb_spec (raw_datetime a) (raw_datetime r)) as [E|_]; [|by apply IH].
    destruct Ha. rewrite E, map_fmap. by apply list_elem_of_fmap_2.
Qed.

Lemma row_at_some df ts r : row_at df ts = Some r → r ∈ df ∧ raw_datetime r = ts.
Proof.
  unfold row_at. intros [Hin Heq]%find_some.
  split; [by apply list_elem_of_In | by apply Z.eqb_eq].
Qed.

Lemma load_era5_rows cwd df rows i0 ix :
  load_era5 cwd df = inr rows → List.map raw_datetime df = i0 :: ix →
  NoDup (List.map raw_datetime df)
  ∧ rows = List.map (fun ts => era5_row cwd (ts, row_at df ts))
             (date_range (index_min i0 ix) (index_max i0 ix) hour).
Proof.
  unfold load_era5, asfreq. intros Hrun Hix. rewrite Hix in *.
  destruct (decide (NoDup (i0 :: ix))) as [Hnd|]; [|done].
  split; [done|]. cbn in Hrun. injection Hrun as <-.
  by rewrite List.map_map.
Qed.

Lemma load_era5_lookup cwd df rows i0 ix (i : nat) r :
  load_era5 cwd df = inr rows → List.map raw_datetime df = i0 :: ix →
  rows !! i = Some r →
  r = era5_row cwd (index_min i0 ix + Z.of_nat i * hour,
                    row_at df (index_min i0 ix + Z.of_nat i * hour)).
Proof.
  intros Hrun Hix Hi.
  destruct (load_era5_rows _ _ _ _ _ Hrun Hix) as [_ ->].
  rewrite map_fmap, list_lookup_fmap in Hi.
  destruct (date_range _ _ _ !! i) as [ts|] eqn:Hts; [|done].
  apply date_range_lookup in Hts as ->. by injection Hi as <-.
Qed.

Lemma load_era5_lookup_lt cwd df rows i0 ix (i : nat) :
  load_era5 cwd df = inr rows → List.map raw_datetime df = i0 :: ix →
  (i ≤ Z.to_nat ((index_max i0 ix - index_min i0 ix) / hour))%nat →
  rows !! i
  = Some (era5_row cwd (index_min i0 ix + Z.of_nat i * hour,
                        row_at df (index_min i0 ix + Z.of_nat i * hour))).
Proof.
  intros Hrun Hix Hi.
  destruct (load_era5_rows _ _ _ _ _ Hrun Hix) as [_ ->].
  by rewrite map_fmap, list_lookup_fmap, date_range_lookup_lt.
Qed.

Lemma feed_index_elem df i0 ix raw :
  List.map raw_datetime df = i0 :: ix → raw ∈ df → raw_datetime raw ∈ i0 :: ix.
Proof.
  intros <- Hraw. rewrite map_fmap. by apply list_elem_of_fmap_2.
Qed.

(** X6. When the ERA5 regularisation returns, every row of its result is
    either a recorded row of the feed, under its own timestamp and with its
    own wind components, or a row of NaN at a timestamp the feed does not
    have: no value is made up.  A recorded row is kept exactly when its
    timestamp lies a whole number of hours after the first row of the
    result; a reading off that grid is left out. *)
Theorem load_era5_rows_from_feed (cwd : cell → cell → cell)
    (df : list reanalysis_raw) (rows : list reanalysis_row) :
  load_era5 cwd df = inr rows →
  (∀ r, r ∈ rows →
        (∃ raw, raw ∈ df ∧ raw_datetime raw = datetime r
                ∧ u r = raw_u raw ∧ v r = raw_v raw)
        ∨ ((datetime r ∉ List.map raw_datetime df) ∧ u r = NaN ∧ v r = NaN))
  ∧ (∀ raw r0, raw ∈ df → head rows = Some r0 →
        (hour | raw_datetime raw - datetime r0) ↔
        ∃ r, r ∈ rows ∧ datetime r = raw_datetime raw
             ∧ u r = raw_u raw ∧ v r = raw_v raw).
Proof.
  intros Hrun.
  destruct (List.map raw_datetime df) as [|i0 ix] eqn:Hix.
  { destruct df; [|done]. injection Hrun as <-. split.
    - by intros r ?%elem_of_nil.
    - by intros raw r0 ?%elem_of_nil. }
  destruct (load_era5_rows _ _ _ _ _ Hrun Hix) as [Hnd _].
  destruct (index_min_spec i0 ix) as [_ Hmin].
  destruct (index_max_spec i0 ix) as [_ Hmax].
  split.
  - intros r [i Hi]%list_elem_of_lookup.
    rewrite (load_era5_lookup _ _ _ _ _ _ _ Hrun Hix Hi). simpl.
    destruct (row_at df _) as [raw|] eqn:Hat.
    + left. exists raw. by apply row_at_some in Hat as [? ?].
    + right. split; [|done]. rewrite <- Hix. intros Hin.
      rewrite map_fmap in Hin. apply list_elem_of_fmap in Hin as (raw & E & Hraw).
      rewrite E, row_at_found in Hat; done.
  - intros raw r0 Hraw Hr0. rewrite head_lookup in Hr0.
    rewrite (load_era5_lookup _ _ _ _ _ _ _ Hrun Hix Hr0). simpl.
    pose proof (feed_index_elem _ _ _ _ Hix Hraw) as Hts.
    pose proof (Hmin _ Hts) as Hlo. pose proof (Hmax _ Hts) as Hhi.
    split.
    + intros [q Hq].
      assert (0 ≤ q) as Hq0 by (unfold hour in *; lia).
      assert (q ≤ (index_max i0 ix - index_min i0 ix) / hour) as Hqn.
      { apply Z.div_le_lower_bound; unfold hour in *; lia. }
      eexists. split.
      * apply list_elem_of_lookup. exists (Z.to_nat q).
        apply (load_era5_lookup_lt _ _ _ _ _ _ Hrun Hix). lia.
      * rewrite Z2Nat.id by done.
        replace (index_min i0 ix + q * hour) with (raw_datetime raw) by lia.
        rewrite row_at_found; done.
    + intros (r & [i Hi]%list_elem_of_lookup & Hd & _).
      rewrite (load_era5_lookup _ _ _ _ _ _ _ Hrun Hix Hi) in Hd. simpl in Hd.
      exists (Z.of_nat i). lia.
Qed.

Lemma load_era5_rows_from_feed_witness :
  (hour | raw_datetime (mk_raw 18000 (Some 5%Q) (Some 6%Q))
          - datetime (mk_re 0 (Some 1%Q) (Some 2%Q) NaN)) ↔
  ∃ r, r ∈ [mk_re 0 (Some 1%Q) (Some 2%Q) NaN; mk_re 3600 (Some 3%Q) (Some 4%Q) NaN;
            mk_re 7200 NaN NaN NaN; mk_re 10800 NaN NaN NaN;
            mk_re 14400 NaN NaN NaN; mk_re 18000 (Some 5%Q) (Some 6%Q) NaN]
       ∧ datetime r = raw_datetime (mk_raw 18000 (Some 5%Q) (Some 6%Q))
       ∧ u r = raw_u (mk_raw 18000 (Some 5%Q) (Some 6%Q))
       ∧ v r = raw_v (mk_raw 18000 (Some 5%Q) (Some 6%Q)).
Proof.
  apply (load_era5_rows_from_feed no_direction gap_feed).
  - reflexivity.
  - unfold gap_feed. right. right. left.
  - reflexivity.
Defined.

(** X7. When the ERA5 regularisation returns on a feed that is not empty,
    its result spans the feed: the first row is at the earliest recorded
    timestamp, the last row is at most the latest recorded timestamp and
    less than one hour before it, and the number of rows is the number of
    hours from the first to the last, both included, whatever the order of
    the feed. *)
Theorem load_era5_span (cwd : cell → cell → cell)
    (df : list reanalysis_raw) (rows : list reanalysis_row) :
  load_era5 cwd df = inr rows → df ≠ [] →
  ∃ r0 rn, head rows = Some r0 ∧ last rows = Some rn
    ∧ (∃ raw, raw ∈ df ∧ raw_datetime raw = datetime r0)
    ∧ (∃ raw, raw ∈ df ∧ datetime rn ≤ raw_datetime raw)
    ∧ (∀ raw, raw ∈ df →
              datetime r0 ≤ raw_datetime raw ∧ raw_datetime raw < datetime rn + hour)
    ∧ datetime rn = datetime r0 + (Z.of_nat (length rows) - 1) * hour.
Proof.
  intros Hrun Hdf.
  destruct (List.map raw_datetime df) as [|i0 ix] eqn:Hix; [by destruct df|].
  destruct (index_min_spec i0 ix) as [Hmin_in Hmin].
  destruct (index_max_spec i0 ix) as [Hmax_in Hmax].
  set (lo := index_min i0 ix) in *. set (hi := index_max i0 ix) in *.
  assert (lo ≤ hi) as Hlohi by (by apply Hmin).
  set (n := Z.to_nat ((hi - lo) / hour)).
  assert (0 ≤ (hi - lo) / hour) as Hn0 by (apply Z.div_pos; unfold hour; lia).
  assert (length rows = S n) as Hlen.
  { destruct (load_era5_rows _ _ _ _ _ Hrun Hix) as [_ ->].
    by rewrite length_map, date_range_length. }
  assert (0 ≤ n)%nat as Hle0 by lia.
  pose proof (load_era5_lookup_lt cwd _ _ _ _ 0%nat Hrun Hix Hle0) as H0.
  pose proof (load_era5_lookup_lt cwd _ _ _ _ n Hrun Hix (Nat.le_refl n)) as Hlast.
  fold lo in H0, Hlast.
  pose proof (Z.mul_div_le (hi - lo) hour ltac:(by unfold hour)) as Hfloor.
  pose proof (Z.mul_succ_div_gt (hi - lo) hour ltac:(by unfold hour)) as Hceil.
  assert (Z.of_nat n = (hi - lo) / hour) as En by (unfold n; lia).
  eexists _, _. split_and!.
  - rewrite head_lookup. exact H0.
  - rewrite last_lookup, Hlen. exact Hlast.
  - simpl. rewrite <- Hix, map_fmap in Hmin_in.
    apply list_elem_of_fmap in Hmin_in as (raw & E & Hraw).
    exists raw. split; [done|]. fold lo in E. lia.
  - simpl. rewrite <- Hix, map_fmap in Hmax_in.
    apply list_elem_of_fmap in Hmax_in as (raw & E & Hraw).
    exists raw. split; [done|]. fold hi in E. lia.
  - intros raw Hraw. simpl.
    pose proof (feed_index_elem _ _ _ _ Hix Hraw) as Hts.
    pose proof (Hmin _ Hts). pose proof (Hmax _ Hts). lia.
  - simpl. rewrite Hlen. lia.
Qed.

Lemma load_era5_span_witness :
  ∃ r0 rn,
    head (List.map (era5_row no_direction)
            [(0, Some (mk_raw 0 (Some 1%Q) (Some 2%Q)));
             (3600, Some (mk_raw 3600 (Some 3%Q) (Some 4%Q)));
             (7200, None); (10800, None); (14400, None);
             (18000, Some (mk_raw 18000 (Some 5%Q) (Some 6%Q)))]) = Some r0
    ∧ last (List.map (era5_row no_direction)
              [(0, Some (mk_raw 0 (Some 1%Q) (Some 2%Q)));
               (3600, Some (mk_raw 3600 (Some 3%Q) (Some 4%Q)));
               (7200, None); (10800, None); (14400, None);
               (18000, Some (mk_raw 18000 (Some 5%Q) (Some 6%Q)))]) = Some rn
    ∧ (∃ raw, raw ∈ gap_feed ∧ raw_datetime raw = datetime r0)
    ∧ (∃ raw, raw ∈ gap_feed ∧ datetime rn ≤ raw_datetime raw)
    ∧ (∀ raw, raw ∈ gap_feed →
              datetime r0 ≤ raw_datetime raw ∧ raw_datetime raw < datetime rn + hour)
    ∧ datetime rn = datetime r0 + (Z.of_nat 6 - 1) * hour.
Proof.
  apply (load_era5_span no_direction gap_feed); [reflexivity | discriminate].
Defined.

(** X8. On a feed that is already hourly and without a gap, in time order,
    the ERA5 regularisation changes nothing: the ERA5 path returns what the
    MERRA2 path returns on the same feed. *)
Theorem load_era5_regular_feed (cwd : cell → cell → cell)
    (df : list reanalysis_raw) (t0 : Z) :
  (∀ (i : nat) r, df !! i = Some r → raw_datetime r = t0 + Z.of_nat i * hour) →
  load_era5 cwd df = inr (load_merra2 cwd df).
Proof.
  intros Hreg.
  destruct (List.map raw_datetime df) as [|i0 ix] eqn:Hix.
  { by destruct df. }
  assert (NoDup (List.map raw_datetime df)) as Hnd.
  { rewrite map_fmap. apply NoDup_alt. intros i j x.
    rewrite !list_lookup_fmap.
    destruct (df !! i) as [ri|] eqn:Hi; [|done].
    destruct (df !! j) as [rj|] eqn:Hj; [|done].
    intros [= <-] [= E]. rewrite (Hreg _ _ Hi), (Hreg _ _ Hj) in E.
    unfold hour in E. lia. }
  destruct (index_min_spec i0 ix) as [Hmin_in Hmin].
  destruct (index_max_spec i0 ix) as [Hmax_in Hmax].
  assert (∀ x, x ∈ i0 :: ix ↔
               ∃ i : nat, (i < length df)%nat ∧ x = t0 + Z.of_nat i * hour) as Hel.
  { intros x. rewrite <- Hix, map_fmap, list_elem_of_fmap. split.
    - intros (r & -> & [i Hi]%list_elem_of_lookup). exists i.
      split; [by eapply lookup_lt_Some | by apply Hreg].
    - intros (i & Hi & ->).
      destruct (lookup_lt_is_Some_2 df i Hi) as [r Hr].
      exists r. split; [by rewrite (Hreg _ _ Hr)|].
      apply list_elem_of_lookup. by exists i. }
  assert (0 < length df)%nat as Hpos by (destruct df; [done | simpl; lia]).
  assert (index_min i0 ix = t0) as Emin.
  { apply Hel in Hmin_in as (j & _ & Ej).
    assert (index_min i0 ix ≤ t0); [|unfold hour in *; lia].
    apply Hmin, Hel. exists 0%nat. split; [done | lia]. }
  assert (index_max i0 ix = t0 + Z.of_nat (length df - 1) * hour) as Emax.
  { apply Hel in Hmax_in as (j & Hj & Ej).
    assert (t0 + Z.of_nat (length df - 1) * hour ≤ index_max i0 ix);
      [|unfold hour in *; lia].
    apply Hmax, Hel. exists (length df - 1)%nat. split; [lia | done]. }
  unfold load_era5, asfreq. rewrite Hix.
  rewrite decide_True by (by rewrite <- Hix).
  rewrite Emin, Emax.
  set (range := date_range _ _ _).
  assert (∀ i : nat, range !! i
            = if decide (i < length df)%nat
              then Some (t0 + Z.of_nat i * hour) else None) as Hrange.
  { intros i. unfold range, date_range.
    replace (t0 + Z.of_nat (length df - 1) * hour - t0)
      with (Z.of_nat (length df - 1) * hour) by lia.
    rewrite Z.div_mul by done.
    rewrite map_fmap, list_lookup_fmap.
    destruct (decide (i < length df)%nat) as [Hi|Hi].
    - by rewrite lookup_seq_lt by lia.
    - by rewrite lookup_seq_ge by lia. }
  clearbody range. cbn. f_equal.
  apply list_eq. intros i. unfold load_merra2.
  rewrite !map_fmap, !list_lookup_fmap, Hrange.
  destruct (decide (i < length df)%nat) as [Hi|Hi].
  - destruct (lookup_lt_is_Some_2 df i Hi) as [r Hr]. rewrite Hr. simpl.
    rewrite <- (Hreg _ _ Hr), row_at_found;
      [done | done | by apply list_elem_of_lookup; exists i].
  - by rewrite (proj2 (lookup_ge_None df i)) by lia.
Qed.

Lemma load_era5_regular_feed_witness :
  load_era5 no_direction regular_feed = inr (load_merra2 no_direction regular_feed).
Proof.
  apply (load_era5_regular_feed no_direction regular_feed 7200).
  intros [|[|[|i]]] r; simpl; intros [= <-]; reflexivity.
Defined.

Lemma load_era5_regular_witness :
  datetime (mk_re 7200 NaN NaN NaN) = datetime (mk_re 3600 (Some 3%Q) (Some 4%Q) NaN) + hour.
Proof.
  destruct (load_era5_regular no_direction gap_feed _ eq_refl) as [Hstep _].
  exact (Hstep 1%nat _ _ eq_refl eq_refl).
Defined.

Local Close Scope Z_scope.

(** ** What extraction leaves and what it writes *)

Lemma makedirs_keeps comps fs base fs' q x :
  makedirs fs base comps = inr fs' → fs !! q = Some x → fs' !! q = Some x.
Proof.
  revert fs base. induction comps as [|c rest IH]; intros fs base; simpl.
  - by intros [= <-].
  - destruct (fs !! (base ++ [c])) as [[]|] eqn:Hp; [| done | done |].
    + apply IH.
    + intros Hm Hq. apply (IH _ _ Hm).
      rewrite lookup_insert_ne; [done|].
      intros E. subst q. by pose proof (eq_trans (eq_sym Hq) Hp).
Qed.

Lemma extract_member_keeps dest fs m fs' q x :
  extract_member dest fs m = inr fs' → fs !! q = Some x →
  q ≠ dest ++ m.1 ∨ x = Dir → fs' !! q = Some x.
Proof.
  unfold extract_member. destruct m as [rel [data|]]; simpl.
  - destruct (makedirs fs [] (removelast (dest ++ rel))) as [e|fs1] eqn:Hm;
      [done|]. cbn.
    intros Hw Hq Hne. pose proof (makedirs_keeps _ _ _ _ q x Hm Hq) as Hq1.
    destruct (fs1 !! (dest ++ rel)) as [n|] eqn:Ht;
      (destruct (decide (q = dest ++ rel)) as [->|Hq'];
       [pose proof (eq_trans (eq_sym Hq1) Ht) as Hx|]).
    + injection Hx as ->. destruct Hne as [?| ->]; done.
    + destruct n; [done | |]; injection Hw as <-; by rewrite lookup_insert_ne.
    + done.
    + injection Hw as <-. by rewrite lookup_insert_ne.
  - intros Hm Hq _. by eapply makedirs_keeps.
Qed.

Lemma extractall_keeps members dest fs fs' q x :
  extractall members dest fs = inr fs' → fs !! q = Some x →
  (∀ m, m ∈ members → q ≠ dest ++ m.1) ∨ x = Dir → fs' !! q = Some x.
Proof.
  revert fs. induction members as [|m rest IH]; intros fs; simpl.
  - by intros [= <-].
  - destruct (extract_member dest fs m) as [e|fs1] eqn:Hm; [done|]. cbn.
    intros Hrest Hq Hne. apply (IH _ Hrest).
    + apply (extract_member_keeps _ _ _ _ _ _ Hm Hq).
      destruct Hne as [Hne|?]; [left|by right]. apply Hne. by left.
    + destruct Hne as [Hne|?]; [left|by right].
      intros m' Hm'. apply Hne. by right.
Qed.

Lemma extractall_cons_inv m rest dest fs fs' :
  extractall (m :: rest) dest fs = inr fs' →
  ∃ fs1, extract_member dest fs m = inr fs1 ∧ extractall rest dest fs1 = inr fs'.
Proof.
  simpl. destruct (extract_member dest fs m) as [e|fs1]; [done|]. cbn.
  intros Hrest. by exists fs1.
Qed.

Lemma extractall_app_inv pre post dest fs fs' :
  extractall (pre ++ post) dest fs = inr fs' →
  ∃ fs1, extractall pre dest fs = inr fs1 ∧ extractall post dest fs1 = inr fs'.
Proof.
  revert fs. induction pre as [|m pre IH]; intros fs Hrun.
  - by exists fs.
  - apply extractall_cons_inv in Hrun as (fs1 & Hm & Hrest).
    apply IH in Hrest as (fs2 & Hpre & Hpost).
    exists fs2. split; [|done]. simpl. rewrite Hm. done.
Qed.

Lemma extract_data_cases p fs fs' :
  _extract_data p fs = inr fs' →
  (is_Some (fs !! p) ∧ fs' = fs)
  ∨ (fs !! p = None
     ∧ ∃ zip members, with_suffix p ".zip" = inr zip
         ∧ fs !! zip = Some (Archive members)
         ∧ extractall members p fs = inr fs').
Proof.
  unfold _extract_data, exists_. case_bool_decide as Hp; simpl.
  - intros [= <-]. by left.
  - destruct (with_suffix p ".zip") as [e|zip] eqn:Hzip; [done|]. cbn.
    unfold open_zip. destruct (fs !! zip) as [[| |members]|] eqn:Hz; try done.
    cbn. intros Hrun. right. split; [by apply eq_None_not_Some|].
    by exists zip, members.
Qed.

(** X9. A successful [_extract_data] leaves the rest of the file system as
    it was: every entry outside the dataset directory is unchanged (the
    archive among them), nothing that existed is removed, and a directory
    stays a directory.  Afterwards the directory exists, unless nothing was
    written at all. *)
Theorem extract_data_frame (p : path) (fs fs' : gmap path node) :
  _extract_data p fs = inr fs' →
  (∀ q x, fs !! q = Some x → ¬ p `prefix_of` q → fs' !! q = Some x)
  ∧ (∀ q, is_Some (fs !! q) → is_Some (fs' !! q))
  ∧ (∀ q, fs !! q = Some Dir → fs' !! q = Some Dir)
  ∧ (is_Some (fs' !! p) ∨ fs' = fs).
Proof.
  intros [[Hp ->]|(Hp & zip & members & Hzip & Hz & Hrun)]%extract_data_cases.
  - split_and!; [done | done | done | by left].
  - split_and!.
    + intros q x Hq Hout. apply (extractall_keeps _ _ _ _ _ _ Hrun Hq).
      left. intros m _ ->. apply Hout. by exists m.1.
    + intros q. by apply (extractall_mono _ _ _ _ _ Hrun).
    + intros q Hq. apply (extractall_keeps _ _ _ _ _ _ Hrun Hq). by right.
    + destruct members as [|m rest].
      * right. by injection Hrun as <-.
      * left. eapply extractall_creates; [| |exact Hrun]; [|done].
        by eapply with_suffix_nonempty.
Qed.

Lemma extract_data_frame_witness :
  extracted !! ["data"; "la_haute_borne.zip"]%string
  = Some (Archive [(["plant_data.csv"]%string, Some "time_utc"%string)]).
Proof.
  destruct (extract_data_frame la_haute_borne archive_only extracted)
    as (Hframe & _).
  - vm_compute. reflexivity.
  - apply Hframe; [reflexivity|].
    intros [k Hk]. discriminate Hk.
Defined.

(** X10. After a successful extraction into an absent directory, each file
    of the archive is found under the directory at its relative path with
    its bytes; of several entries with one path the last one is found. *)
Theorem extract_data_writes_members (p zip : path) (fs fs' : gmap path node)
    (pre post : list member) (rel : path) (data : string) :
  fs !! p = None →
  with_suffix p ".zip" = inr zip →
  fs !! zip = Some (Archive (pre ++ (rel, Some data) :: post)) →
  (∀ m, m ∈ post → m.1 ≠ rel) →
  _extract_data p fs = inr fs' →
  fs' !! (p ++ rel) = Some (File data).
Proof.
  intros Hp Hzip Hz Hlast
    [[[x Hx] _]|(_ & zip' & members & Hzip' & Hz' & Hrun)]%extract_data_cases.
  { by pose proof (eq_trans (eq_sym Hx) Hp). }
  pose proof (eq_trans (eq_sym Hzip') Hzip) as [= ->].
  pose proof (eq_trans (eq_sym Hz') Hz) as [= ->].
  apply extractall_app_inv in Hrun as (fs1 & _ & Hrun).
  apply extractall_cons_inv in Hrun as (fs2 & Hm & Hrun).
  apply (extractall_keeps _ _ _ _ _ _ Hrun); [|left].
  - unfold extract_member in Hm. simpl in Hm.
    destruct (makedirs fs1 [] (removelast (p ++ rel))) as [e|fs1']; [done|].
    cbn in Hm.
    destruct (fs1' !! (p ++ rel)) as [[]|]; [done | | |];
      injection Hm as <-; by rewrite lookup_insert_eq.
  - intros m Hm' E. apply app_inv_head in E. by destruct (Hlast m Hm').
Qed.

Lemma extract_data_writes_members_witness :
  extracted !! (la_haute_borne ++ ["plant_data.csv"]%string)
  = Some (File "time_utc").
Proof.
  apply (extract_data_writes_members la_haute_borne
           ["data"; "la_haute_borne.zip"]%string archive_only extracted
           [] [] ["plant_data.csv"]%string "time_utc").
  - reflexivity.
  - reflexivity.
  - reflexivity.
  - by intros m ?%elem_of_nil.
  - vm_compute. reflexivity.
Defined.

(** ** The dashboard pages *)

Example dashboard_samples :
  split_on "," "5.0, 6.0,,8" = ["5.0"; " 6.0"; ""; "8"]%string
  ∧ split_on "," "" = [""%string]
  ∧ turbine_ids ["R80721"; "R80711"; "R80721"; "R80736"]%string
    = ["R80711"; "R80721"; "R80736"]%string
  ∧ quality_df [("a"%string, [true; false; false; false]);
                ("b"%string, [false; false; false; false]);
                ("c"%string, [true; true; false; false])]
    = [("c"%string, ((2 # 4) * 100)%Q); ("a"%string, ((1 # 4) * 100)%Q)]
  ∧ radial_range [Some 97%Q; Some 80%Q; Some 101%Q] = Some (Some 50%Q, 105%Q)
  ∧ radial_range [Some 97%Q; Some 40%Q; Some 101%Q] = Some (Some (40 - 5)%Q, 105%Q)
  ∧ radial_range [Some 97%Q; NaN] = Some (Some 50%Q, 105%Q).
Proof. split_and!; vm_compute; reflexivity. Qed.

(** *** Wake losses page *)

Local Open Scope Q_scope.

Lemma wd_centers_lookup (n : nat) (w : Q) (i : nat) :
  wd_centers n w !! i
  = if decide (i < n)%nat
    then Some (0 + inject_Z (Z.of_nat i) * ((360 - 0) / inject_Z (Z.of_nat n)) + w / 2)
    else None.
Proof.
  unfold wd_centers, linspace. rewrite !map_fmap, !list_lookup_fmap.
  destruct (decide (i < n)%nat).
  - by rewrite lookup_seq_lt.
  - by rewrite lookup_seq_ge by lia.
Qed.

Lemma inject_nat_pos (n : nat) : (0 < n)%nat → 0 < inject_Z (Z.of_nat n).
Proof.
  intros Hn. change 0 with (inject_Z 0). rewrite <- Zlt_Qlt. lia.
Qed.

(** X11. The wake page places bin [i] of [n_bins] at [i * 360 / n_bins] plus
    half the bin width.  When the bins tile the circle ([n_bins] times the
    width is 360) this is the midpoint of bin [i], strictly inside the bin
    and inside (0, 360); the list has one direction per bin. *)
Theorem wd_centers_midpoints (n_bins : nat) (wd_bin_width : Q) (i : nat) (c : Q) :
  wd_centers n_bins wd_bin_width !! i = Some c →
  (i < n_bins)%nat
  ∧ length (wd_centers n_bins wd_bin_width) = n_bins
  ∧ c == inject_Z (Z.of_nat i) * (360 / inject_Z (Z.of_nat n_bins))
         + wd_bin_width / 2
  ∧ (inject_Z (Z.of_nat n_bins) * wd_bin_width == 360 →
     c == (inject_Z (Z.of_nat i) + 1 / 2) * wd_bin_width
     ∧ inject_Z (Z.of_nat i) * wd_bin_width < c
     ∧ c < (inject_Z (Z.of_nat i) + 1) * wd_bin_width
     ∧ 0 < c ∧ c < 360).
Proof.
  rewrite wd_centers_lookup.
  destruct (decide (i < n_bins)%nat) as [Hi|]; [|done].
  intros [= <-].
  pose proof (inject_nat_pos n_bins ltac:(lia)) as Hn.
  assert (0 <= inject_Z (Z.of_nat i)) as Hi0.
  { change 0 with (inject_Z 0). rewrite <- Zle_Qle. lia. }
  assert (inject_Z (Z.of_nat i) + 1 <= inject_Z (Z.of_nat n_bins)) as Hin.
  { change 1 with (inject_Z 1). rewrite <- inject_Z_plus, <- Zle_Qle. lia. }
  set (qi := inject_Z (Z.of_nat i)) in *.
  set (qn := inject_Z (Z.of_nat n_bins)) in *.
  split_and!.
  - done.
  - unfold wd_centers, linspace. by rewrite !length_map, length_seq.
  - field. lra.
  - intros Htile.
    assert (360 / qn == wd_bin_width) as Ew by (rewrite <- Htile; field; lra).
    assert (0 < wd_bin_width) as Hw.
    { destruct (Qlt_le_dec 0 wd_bin_width) as [|Hneg]; [done|].
      assert (qn * wd_bin_width <= 0) by nra. lra. }
    assert (0 + qi * ((360 - 0) / qn) + wd_bin_width / 2
            == (qi + 1 / 2) * wd_bin_width) as Ec.
    { transitivity (qi * (360 / qn) + wd_bin_width / 2); [field; lra|].
      rewrite Ew. field. }
    assert (0 <= qi * wd_bin_width) as Hprod
      by (apply Qmult_le_0_compat; lra).
    assert (0 <= (qn - (qi + 1)) * wd_bin_width) as Hrest
      by (apply Qmult_le_0_compat; lra).
    assert ((qn - (qi + 1)) * wd_bin_width
            == 360 - qi * wd_bin_width - wd_bin_width) as Erest
      by (rewrite <- Htile; ring).
    assert ((qi + 1 / 2) * wd_bin_width
            == qi * wd_bin_width + wd_bin_width / 2) as Emid by field.
    assert ((qi + 1) * wd_bin_width == qi * wd_bin_width + wd_bin_width) as Eup
      by ring.
    rewrite Ec, Emid, Eup. rewrite Erest in Hrest.
    assert (wd_bin_width == 2 * (wd_bin_width / 2)) as Ehalf by field.
    clear Ec Erest Emid Eup Ew Htile Hin Hi0 Hn.
    generalize dependent (qi * wd_bin_width). intros a Hprod Hrest.
    generalize dependent (wd_bin_width / 2). intros h Ehalf.
    split_and!; [reflexivity | lra | lra | lra | lra].
Qed.

Lemma wd_centers_midpoints_witness :
  ((5 # 2) == (inject_Z (Z.of_nat 0) + 1 / 2) * 5)%Q.
Proof.
  destruct (wd_centers_midpoints 72 5 0 _ eq_refl) as (_ & _ & _ & Hmid).
  destruct Hmid as [Hc _]; [reflexivity|].
  rewrite <- Hc. reflexivity.
Defined.

Lemma min_cell_nan_l c : min_cell NaN c = NaN.
Proof. done. Qed.

Lemma fold_min_nan rest : fold_left min_cell rest NaN = NaN.
Proof. induction rest as [|c rest IH]; [done|]. simpl. apply IH. Qed.

Lemma fold_min_spec rest (x : Q) :
  (NaN ∈ rest → fold_left min_cell rest (Some x) = NaN)
  ∧ (NaN ∉ rest →
     ∃ m, fold_left min_cell rest (Some x) = Some m
          ∧ Some m ∈ Some x :: rest
          ∧ ∀ y, Some y ∈ Some x :: rest → m <= y).
Proof.
  revert x. induction rest as [|c rest IH]; intros x.
  - split; [by intros ?%elem_of_nil|]. intros _. exists x.
    split_and!; [done | by left |].
    intros y [= ->]%list_elem_of_singleton. lra.
  - split.
    + intros [<-|Hin]%elem_of_cons; simpl; [apply fold_min_nan|].
      destruct c as [y|]; [|apply fold_min_nan]. simpl. by apply IH.
    + rewrite not_elem_of_cons. intros [Hc Hrest].
      destruct c as [y|]; [|done]. simpl.
      destruct (IH (if Qle_bool x y then x else y)) as [_ Hnum].
      destruct (Hnum Hrest) as (m & Hm & Hin & Hle).
      exists m. split; [done|].
      destruct (Qle_bool x y) eqn:Hxy.
      * apply Qle_bool_iff in Hxy. split.
        -- apply elem_of_cons in Hin as [E|Hin]; [rewrite E; by left|].
           right. by right.
        -- intros z [[= ->]|[[= ->]|Hz]%elem_of_cons]%elem_of_cons.
           ++ apply Hle. by left.
           ++ specialize (Hle x ltac:(by left)). lra.
           ++ apply Hle. by right.
      * assert (y < x) as Hyx.
        { apply Qnot_le_lt. rewrite <- Qle_bool_iff. congruence. }
        split.
        -- apply elem_of_cons in Hin as [E|Hin]; [rewrite E; right; by left|].
           right. by right.
        -- intros z [[= ->]|[[= ->]|Hz]%elem_of_cons]%elem_of_cons.
           ++ specialize (Hle y ltac:(by left)). lra.
           ++ apply Hle. by left.
           ++ apply Hle. by right.
Qed.

Lemma nan_elem_cases (xs : list cell) : NaN ∈ xs ∨ NaN ∉ xs.
Proof.
  induction xs as [|[x|] xs [IH|IH]].
  - right. apply not_elem_of_nil.
  - left. by right.
  - right. by intros [[=]|?]%elem_of_cons.
  - left. by left.
  - left. by left.
Qed.

(** X12. The radial axis of the wake page always ends at 105; it starts at
    50 or lower, at least 5 below every plotted efficiency, and at 50 itself
    as soon as one bin is NaN.  Only an empty efficiency array fails. *)
Theorem radial_range_below (mean_eff : list cell) :
  (radial_range mean_eff = None ↔ mean_eff = [])
  ∧ ∀ lo hi, radial_range mean_eff = Some (lo, hi) →
      hi = 105
      ∧ ∃ l, lo = Some l ∧ l <= 50
             ∧ (NaN ∈ mean_eff → l = 50)
             ∧ (NaN ∉ mean_eff → ∀ x, Some x ∈ mean_eff → l <= x - 5).
Proof.
  unfold radial_range, array_min. split.
  - by destruct mean_eff.
  - intros lo hi. destruct mean_eff as [|[x|] rest]; [done| |].
    + cbn. intros [= <- <-]. split; [done|].
      destruct (fold_min_spec rest x) as [Hnan Hnum].
      destruct (nan_elem_cases rest) as [Hin|Hout].
      * rewrite (Hnan Hin). exists 50. cbn.
        split_and!; [done | lra | done |].
        intros []. by right.
      * destruct (Hnum Hout) as (m & -> & _ & Hle). cbn.
        unfold py_min, lt_f. destruct (Qle_bool 50 (m - 5)) eqn:H50; simpl.
        -- apply Qle_bool_iff in H50. exists 50.
           split_and!; [done | lra | done |].
           intros _ y Hy. specialize (Hle y Hy). lra.
        -- assert (m - 5 < 50) as Hlt.
           { apply Qnot_le_lt. rewrite <- Qle_bool_iff. congruence. }
           exists (m - 5). split_and!; [done | lra | |].
           ++ intros [[=]|?]%elem_of_cons. done.
           ++ intros _ y Hy. specialize (Hle y Hy). lra.
    + cbn. rewrite fold_min_nan. cbn. intros [= <- <-].
      split; [done|]. exists 50. split_and!; [done | lra | done |].
      intros []. by left.
Qed.

Lemma radial_range_below_witness :
  ∃ l, Some (40 - 5) = Some l ∧ l <= 50
       ∧ (NaN ∈ [Some 97; Some 40; Some 101] → l = 50)
       ∧ (NaN ∉ [Some 97; Some 40; Some 101] →
          ∀ x, Some x ∈ [Some 97; Some 40; Some 101] → l <= x - 5).
Proof.
  destruct (radial_range_below [Some 97; Some 40; Some 101]) as [_ Hrange].
  apply (Hrange (Some (40 - 5)) 105). reflexivity.
Defined.

Local Close Scope Q_scope.

(** *** Yaw misalignment page *)

Lemma split_on_nonempty sep s : split_on sep s ≠ [].
Proof.
  destruct s as [|c rest]; simpl; [done|].
  destruct (Ascii.eqb c sep); [done|]. by destruct (split_on sep rest).
Qed.

Lemma split_on_concat sep s :
  String.concat (String sep EmptyString) (split_on sep s) = s.
Proof.
  induction s as [|c rest IH]; simpl; [done|].
  pose proof (split_on_nonempty sep rest) as Hne.
  destruct (Ascii.eqb_spec c sep) as [->|Hc].
  - destruct (split_on sep rest) as [|piece pieces]; [done|].
    cbn [String.concat]. simpl. by rewrite <- IH.
  - destruct (split_on sep rest) as [|piece pieces]; [done|].
    rewrite <- IH. by destruct pieces.
Qed.

Lemma split_on_length sep s :
  length (split_on sep s)
  = S (length (List.filter (fun c => Ascii.eqb c sep) (String.list_ascii_of_string s))).
Proof.
  induction s as [|c rest IH]; simpl; [done|].
  pose proof (split_on_nonempty sep rest) as Hne.
  destruct (Ascii.eqb c sep); simpl.
  - by rewrite IH.
  - rewrite <- IH. by destruct (split_on sep rest).
Qed.

(** X13. The wind speed bins typed on the yaw page are taken all or none:
    the text is cut at its commas into one more piece than it has commas
    (the pieces joined by commas give the text back); when every piece is a
    number the bins are those numbers in order, and when a single piece is
    not, the four default bins replace the whole input.  The list of bins is
    never empty. *)
Theorem parse_ws_bins_all_or_none (float_strip : string → option cell)
    (ws_bin_str : string) :
  parse_ws_bins float_strip ws_bin_str ≠ []
  ∧ String.concat "," (split_on "," ws_bin_str) = ws_bin_str
  ∧ length (split_on "," ws_bin_str)
    = S (length (List.filter (fun c => Ascii.eqb c ",")
                   (String.list_ascii_of_string ws_bin_str)))
  ∧ ((∃ piece, piece ∈ split_on "," ws_bin_str ∧ float_strip piece = None) →
     parse_ws_bins float_strip ws_bin_str = default_ws_bins)
  ∧ ((∀ piece, piece ∈ split_on "," ws_bin_str → is_Some (float_strip piece)) →
     Forall2 (fun piece b => float_strip piece = Some b)
       (split_on "," ws_bin_str) (parse_ws_bins float_strip ws_bin_str)).
Proof.
  unfold parse_ws_bins. split_and!.
  - destruct (mapM float_strip _) as [bins|] eqn:Hm; [|done].
    apply length_mapM in Hm. intros ->.
    by destruct (split_on_nonempty "," ws_bin_str), (split_on "," ws_bin_str).
  - apply split_on_concat.
  - apply split_on_length.
  - intros Hbad. rewrite (mapM_None_2 float_strip); [done|].
    by apply Exists_exists.
  - intros Hall.
    destruct (mapM_is_Some_2 float_strip (split_on "," ws_bin_str)) as [bins Hm].
    { apply Forall_forall. intros piece Hin. by apply Hall. }
    rewrite Hm. by apply mapM_Some_1.
Qed.

Lemma parse_ws_bins_all_or_none_witness :
  parse_ws_bins (fun piece => if String.eqb piece "" then None else Some (Some 5%Q))
    "5.0, 6.0,"
  = default_ws_bins.
Proof.
  apply (parse_ws_bins_all_or_none
           (fun piece => if String.eqb piece "" then None else Some (Some 5%Q))
           "5.0, 6.0,").
  exists ""%string. split; [|reflexivity].
  vm_compute. right. right. left.
Defined.

(** *** Plant overview page *)

Local Open Scope Q_scope.

#[global] Instance pct_ge_total : Total pct_ge.
Proof.
  intros a b. unfold pct_ge. rewrite !Qle_bool_iff.
  destruct (Qlt_le_dec a.2 b.2) as [Hlt|Hle]; [right | left]; lra.
Qed.

#[global] Instance str_le_total : Total str_le.
Proof. intros a b. apply String.leb_total. Qed.

Lemma null_count_pos (col : list bool) :
  (0 < length (List.filter id col))%nat ↔ true ∈ col.
Proof.
  induction col as [|[] col IH]; simpl.
  - split; [lia | by intros ?%elem_of_nil].
  - split; [by left | lia].
  - rewrite IH. split; [by right|]. by intros [[=]|?]%elem_of_cons.
Qed.

Lemma isnull_mean_cons b col :
  isnull_mean (b :: col)
  = Some (inject_Z (Z.of_nat (length (List.filter id (b :: col))))
          / inject_Z (Z.of_nat (length (b :: col)))).
Proof. reflexivity. Qed.

Lemma positive_pct (c : string * list bool) name pct :
  positive (c.1, map_f (fun m => m * 100) (isnull_mean c.2)) = Some (name, pct) ↔
  c.1 = name ∧ true ∈ c.2
  ∧ pct = inject_Z (Z.of_nat (length (List.filter id c.2)))
          / inject_Z (Z.of_nat (length c.2)) * 100.
Proof.
  destruct c as [n col]. unfold positive. cbn [fst snd].
  destruct col as [|b col].
  { split; [done|]. by intros (_ & ?%elem_of_nil & _). }
  rewrite isnull_mean_cons, <- (null_count_pos (b :: col)).
  assert (0 < length (b :: col))%nat as Hlen by (simpl; lia).
  generalize dependent (length (b :: col)). intros len Hlen.
  generalize (length (List.filter id (b :: col))). intros cnt.
  pose proof (inject_nat_pos len Hlen) as Hq.
  cbn [map_f gt_f].
  destruct (Qle_bool _ 0) eqn:Hle; cbn [negb].
  - apply Qle_bool_iff in Hle. split; [done|]. intros (_ & Hpos & _).
    pose proof (inject_nat_pos cnt Hpos) as Hc.
    assert (0 < inject_Z (Z.of_nat cnt) / inject_Z (Z.of_nat len))
      by (apply Qlt_shift_div_l; lra).
    generalize dependent (inject_Z (Z.of_nat cnt) / inject_Z (Z.of_nat len)).
    intros r Hr1 Hr2. lra.
  - assert (¬ inject_Z (Z.of_nat cnt) / inject_Z (Z.of_nat len) * 100 <= 0) as Hpos
      by (rewrite <- Qle_bool_iff; congruence).
    split.
    + intros [= <- <-]. split_and!; [done | | done].
      destruct cnt; [|lia]. destruct Hpos.
      assert (inject_Z (Z.of_nat 0) / inject_Z (Z.of_nat len) == 0) as E
        by (change (inject_Z (Z.of_nat 0)) with 0; field; lra).
      rewrite E. lra.
    + by intros (-> & _ & ->).
Qed.

(** X14. The data quality table of the overview page lists exactly the
    columns that have a missing value, each with its share of missing rows
    in percent, above 0 and at most 100, largest share first; the table is
    empty, and the page reports that nothing is missing, exactly when no
    column has a missing value. *)
Theorem quality_df_lists_missing (scada : null_frame) :
  Sorted pct_ge (quality_df scada)
  ∧ (∀ name pct, (name, pct) ∈ quality_df scada ↔
       ∃ col, (name, col) ∈ scada ∧ true ∈ col
              ∧ pct = inject_Z (Z.of_nat (length (List.filter id col)))
                      / inject_Z (Z.of_nat (length col)) * 100)
  ∧ (∀ name pct, (name, pct) ∈ quality_df scada → 0 < pct ∧ pct <= 100)
  ∧ (quality_df scada = [] ↔ ∀ name col, (name, col) ∈ scada → true ∉ col).
Proof.
  assert (∀ name pct, (name, pct) ∈ quality_df scada ↔
            ∃ col, (name, col) ∈ scada ∧ true ∈ col
                   ∧ pct = inject_Z (Z.of_nat (length (List.filter id col)))
                           / inject_Z (Z.of_nat (length col)) * 100) as Hel.
  { intros name pct. unfold quality_df, nan_pct.
    rewrite merge_sort_Permutation, list_elem_of_omap, map_fmap. split.
    - intros (entry & (c & -> & Hc)%list_elem_of_fmap & Hpos).
      apply positive_pct in Hpos as (<- & Hnull & ->).
      exists c.2. by destruct c.
    - intros (col & Hc & Hnull & ->).
      exists (name, map_f (fun m => m * 100) (isnull_mean col)). split.
      + apply list_elem_of_fmap. by exists (name, col).
      + by apply (positive_pct (name, col)). }
  split_and!.
  - apply Sorted_merge_sort, _.
  - exact Hel.
  - intros name pct (col & _ & Hnull & ->)%Hel.
    apply null_count_pos in Hnull as Hcnt.
    pose proof (filter_length_le id col) as Hle.
    pose proof (inject_nat_pos _ Hcnt) as Hc.
    pose proof (inject_nat_pos (length col) ltac:(lia)) as Hl.
    assert (inject_Z (Z.of_nat (length (List.filter id col)))
            <= inject_Z (Z.of_nat (length col))) as Hq
      by (rewrite <- Zle_Qle; lia).
    set (a := inject_Z (Z.of_nat (length (List.filter id col)))) in *.
    set (b := inject_Z (Z.of_nat (length col))) in *.
    assert (0 < a / b) by (apply Qlt_shift_div_l; lra).
    assert (a / b <= 1) by (apply Qle_shift_div_r; lra).
    generalize dependent (a / b). intros r Hr0 Hr1. lra.
  - split.
    + intros Hempty name col Hc Hnull.
      assert ((name, inject_Z (Z.of_nat (length (List.filter id col)))
                     / inject_Z (Z.of_nat (length col)) * 100)
              ∈ quality_df scada) as Hin by (apply Hel; by exists col).
      rewrite Hempty in Hin. by apply elem_of_nil in Hin.
    + intros Hnone. destruct (quality_df scada) as [|[name pct] rest] eqn:Hq;
        [done|].
      assert ((name, pct) ∈ (name, pct) :: rest) as Hin by left.
      apply Hel in Hin as (col & Hc & Hnull & _). by destruct (Hnone name col).
Qed.

Lemma quality_df_lists_missing_witness :
  (0 < (2 # 4) * 100 ∧ (2 # 4) * 100 <= 100)%Q.
Proof.
  destruct (quality_df_lists_missing
              [("a"%string, [true; false; false; false]);
               ("b"%string, [false; false; false; false]);
               ("c"%string, [true; true; false; false])])
    as (_ & _ & Hbound & _).
  apply (Hbound "c"%string). vm_compute. left.
Defined.

Local Close Scope Q_scope.

Lemma turbine_data_absent (asset_id : list string) (t : string) :
  t ∉ asset_id → turbine_data asset_id t = [].
Proof.
  unfold turbine_data. induction asset_id as [|a ids IH]; simpl; [done|].
  intros [Hne Hout]%not_elem_of_cons.
  destruct (String.eqb_spec a t) as [->|_]; [done | by apply IH].
Qed.

(** X15. The turbine selector of the overview page offers every turbine of
    the SCADA stream once, in ascending order; the turbine count shown is
    the number of options; every option selects at least one row, and a
    name outside the stream selects none. *)
Theorem turbine_ids_options (asset_id : list string) :
  Sorted str_le (turbine_ids asset_id)
  ∧ NoDup (turbine_ids asset_id)
  ∧ (∀ t, t ∈ turbine_ids asset_id ↔ t ∈ asset_id)
  ∧ length (turbine_ids asset_id) = n_turbines asset_id
  ∧ (∀ t, t ∈ turbine_ids asset_id → turbine_data asset_id t ≠ [])
  ∧ (∀ t, t ∉ asset_id → turbine_data asset_id t = []).
Proof.
  destruct (unique_from_spec [] asset_id) as [Hnd Hel].
  fold (unique asset_id) in Hnd, Hel.
  assert (∀ t, t ∈ turbine_ids asset_id ↔ t ∈ asset_id) as Hin.
  { intros t. unfold turbine_ids. rewrite merge_sort_Permutation, Hel.
    split; [tauto|]. intros ?. split; [done | apply not_elem_of_nil]. }
  unfold turbine_ids, n_turbines. split_and!.
  - apply Sorted_merge_sort, _.
  - by rewrite merge_sort_Permutation.
  - exact Hin.
  - by rewrite merge_sort_Permutation.
  - intros t Ht%Hin Hempty.
    assert (t ∈ turbine_data asset_id t) as Hsel.
    { apply list_elem_of_In, filter_In. split; [by apply list_elem_of_In|].
      apply String.eqb_refl. }
    rewrite Hempty in Hsel. by apply elem_of_nil in Hsel.
  - apply turbine_data_absent.
Qed.

Lemma turbine_ids_options_witness :
  turbine_data ["R80721"; "R80711"; "R80721"]%string "R80711" ≠ [].
Proof.
  apply (turbine_ids_options ["R80721"; "R80711"; "R80721"]%string).
  vm_compute. left.
Defined.
